(** * FinBoard: response cache, JSON path engine and fetch orchestrator

    A shallow embedding of [src/services/apiService.js] and of the
    cache-duration policy of [src/components/widgets/WidgetContainer.js],
    with the properties the specification states about them; and, around
    them, of the refresh of a widget ([fetchData]), the widget store
    ([src/store/dashboardStore.js]), the selection of fields in the
    add-widget dialog ([AddWidgetModalNew.js], [JSONFieldExplorer.js]) and the
    pagination of the table ([StockTable.js]), with further properties of
    that code.

    Modelling conventions.
    - A JavaScript value is a term of [jsvalue]: the JSON values plus
      [undefined].  An object is the list of its own enumerable properties in
      the order [Object.keys] reports them; keys are assumed distinct, as
      [JSON.parse] produces them.
    - A JavaScript number is a term of [number]: an exact rational, an
      infinity or NaN.  Rounding to 64-bit floating point and the sign of
      zero are not modelled.  A clock reading is a rational (milliseconds);
      a refresh interval, a cache duration and an expiry are numbers, NaN
      included.
    - A JavaScript string is a [string]; its characters stand for code units.
    - A property read finds an own property or goes to the prototype chain.
      The built-in prototypes are not part of this repository: which names
      they define is a parameter, [builtin], and a read that reaches one of
      their members has the outcome [Builtin], with nothing said about what
      the call does from there on.  A call whose outcome is [Returns v]
      returns [v] whatever the prototypes hold.
    - [apiCache], a [Map] keyed by URL, is a [gmap]; the loop that sweeps it
      visits its entries in the order [map_to_list] gives, and what it leaves
      does not depend on that order.
    - The network is a function from requests to what they settle to; the
      service runs in a state monad over the cache, the clock and the log of
      requested URLs.
    - [console.log] calls are left out. *)

From Stdlib Require Import ZArith QArith Qminmax Qround String Ascii List Bool Lia.
From Stdlib Require Import DecimalString DecimalN Lqa.
From stdpp Require Import base option list gmap strings.

Set Warnings "-register-all".

Local Open Scope string_scope.

(** ** The JavaScript fragment used by the services *)
Module JS.

Inductive number : Type :=
| NaN
| Infinity (negative : bool)
| Finite (q : Q).

(** [a < b], [a > b] and [a <= b] on numbers: false when either is NaN. *)
Definition number_lt (a b : number) : bool :=
  match a, b with
  | NaN, _ | _, NaN => false
  | Infinity na, Infinity nb => na && negb nb
  | Infinity na, Finite _ => na
  | Finite _, Infinity nb => negb nb
  | Finite x, Finite y => negb (Qle_bool y x)
  end.

Definition number_gt (a b : number) : bool := number_lt b a.

Definition number_le (a b : number) : bool :=
  match a, b with
  | NaN, _ | _, NaN => false
  | Infinity na, Infinity nb => na || negb nb
  | Infinity na, Finite _ => na
  | Finite _, Infinity nb => negb nb
  | Finite x, Finite y => Qle_bool x y
  end.

Definition is_NaN (a : number) : bool :=
  match a with NaN => true | _ => false end.

(** [a + b] and [a - b]. *)
Definition number_add (a b : number) : number :=
  match a, b with
  | NaN, _ | _, NaN => NaN
  | Infinity na, Infinity nb => if Bool.eqb na nb then Infinity na else NaN
  | Infinity na, Finite _ => Infinity na
  | Finite _, Infinity nb => Infinity nb
  | Finite x, Finite y => Finite (x + y)
  end.

Definition number_opp (a : number) : number :=
  match a with
  | NaN => NaN
  | Infinity negative => Infinity (negb negative)
  | Finite x => Finite (- x)
  end.

Definition number_sub (a b : number) : number := number_add a (number_opp b).

(** [a * k] and [a / k] for a constant [k > 0]. *)
Definition number_scale (a : number) (k : Q) : number :=
  match a with
  | Finite x => Finite (x * k)
  | _ => a
  end.

Definition number_divide (a : number) (k : Q) : number :=
  match a with
  | Finite x => Finite (x / k)
  | _ => a
  end.

(** [Math.min(a, b)]. *)
Definition number_min (a b : number) : number :=
  match a, b with
  | NaN, _ | _, NaN => NaN
  | Infinity true, _ | _, Infinity true => Infinity true
  | Infinity false, other | other, Infinity false => other
  | Finite x, Finite y => Finite (Qmin x y)
  end.

(** [Math.floor(a)] and [Math.max(0, a)]. *)
Definition number_floor (a : number) : number :=
  match a with
  | Finite x => Finite (inject_Z (Qfloor x))
  | _ => a
  end.

Definition number_max_zero (a : number) : number :=
  match a with
  | NaN => NaN
  | Infinity negative => if negative then Finite 0 else a
  | Finite x => Finite (Qmax 0 x)
  end.

(** What a call comes to: it returns a value; it throws a [TypeError]; or it
    reads a member of a built-in prototype, and what it does from there on is
    for the runtime to say. *)
Inductive outcome (A : Type) : Type :=
| Returns (a : A)
| Throws
| Builtin.

Arguments Returns {A} a.
Arguments Throws {A}.
Arguments Builtin {A}.

Definition and_then {A B} (m : outcome A) (k : A -> outcome B) : outcome B :=
  match m with
  | Returns a => k a
  | Throws => Throws
  | Builtin => Builtin
  end.

(** [l.map(f)], element by element, as far as the calls of [f] return. *)
Fixpoint map_outcome {A B} (f : A -> outcome B) (l : list A) : outcome (list B) :=
  match l with
  | [] => Returns []
  | x :: rest =>
      and_then (f x) (fun y =>
      and_then (map_outcome f rest) (fun ys => Returns (y :: ys)))
  end.

Inductive jsvalue : Type :=
| JUndefined
| JNull
| JBool (b : bool)
| JNum (n : number)
| JStr (s : string)
| JArr (items : list jsvalue)
| JObj (props : list (string * jsvalue)).

(** Induction on values, with the hypothesis for the elements of an array
    and the members of an object. *)
Section NestedInduction.
Variable P : jsvalue -> Prop.
Hypothesis on_undefined : P JUndefined.
Hypothesis on_null : P JNull.
Hypothesis on_bool : forall b, P (JBool b).
Hypothesis on_num : forall n, P (JNum n).
Hypothesis on_str : forall s, P (JStr s).
Hypothesis on_arr : forall items, Forall P items -> P (JArr items).
Hypothesis on_obj : forall props, Forall (fun kv => P (snd kv)) props -> P (JObj props).

Fixpoint jsvalue_nested_ind (v : jsvalue) : P v :=
  match v with
  | JUndefined => on_undefined
  | JNull => on_null
  | JBool b => on_bool b
  | JNum n => on_num n
  | JStr s => on_str s
  | JArr items =>
      on_arr items
        ((fix all (l : list jsvalue) : Forall P l :=
            match l with
            | [] => @List.Forall_nil _ P
            | x :: rest => @List.Forall_cons _ P x rest (jsvalue_nested_ind x) (all rest)
            end) items)
  | JObj props =>
      on_obj props
        ((fix all (l : list (string * jsvalue)) : Forall (fun kv => P (snd kv)) l :=
            match l with
            | [] => @List.Forall_nil _ _
            | kv :: rest =>
                @List.Forall_cons _ (fun kv => P (snd kv)) kv rest
                  (jsvalue_nested_ind (snd kv)) (all rest)
            end) props)
  end.
End NestedInduction.

Definition num (z : Z) : jsvalue := JNum (Finite (inject_Z z)).

(** [!v] is [negb (truthy v)]. *)
Definition truthy (v : jsvalue) : bool :=
  match v with
  | JUndefined | JNull => false
  | JBool b => b
  | JNum NaN => false
  | JNum (Infinity _) => true
  | JNum (Finite q) => negb (Qeq_bool q 0)
  | JStr s => negb (String.eqb s "")
  | JArr _ | JObj _ => true
  end.

(** [Array.isArray(v) ? 'array' : typeof v], the tag [exploreJSONPaths]
    computes twice. *)
Definition type_tag (v : jsvalue) : string :=
  match v with
  | JUndefined => "undefined"
  | JNull => "object"
  | JBool _ => "boolean"
  | JNum _ => "number"
  | JStr _ => "string"
  | JArr _ => "array"
  | JObj _ => "object"
  end.

(** Decimal digits of a natural number, as a template literal prints it. *)
Definition show_N (n : N) : string := NilEmpty.string_of_uint (N.to_uint n).
Definition show_nat (n : nat) : string := show_N (N.of_nat n).

Definition is_digit (c : ascii) : bool :=
  let n := nat_of_ascii c in (48 <=? n)%nat && (n <=? 57)%nat.

(** [parseInt] on a run of decimal digits (0 on anything else, where
    JavaScript gives NaN; the callers pass runs of digits only). *)
Definition parseInt_digits (s : string) : N :=
  match NilEmpty.uint_of_string s with
  | Some d => N.of_uint d
  | None => 0%N
  end.

Definition digits_N (ds : list ascii) : N := parseInt_digits (string_of_list_ascii ds).

(** A property key that is an array index: the canonical decimal form of a
    number below 2^32 - 1. *)
Definition array_index (key : string) : option nat :=
  let n := parseInt_digits key in
  if forallb is_digit (list_ascii_of_string key)
     && String.eqb (show_N n) key && (n <? 4294967295)%N
  then Some (N.to_nat n) else None.

Fixpoint assoc (key : string) (props : list (string * jsvalue)) : option jsvalue :=
  match props with
  | [] => None
  | (k, v) :: rest => if String.eqb k key then Some v else assoc key rest
  end.

(** The own property [key] of [v], if [v] has it: object members, array
    elements and [length], string characters and [length]. *)
Definition own_prop (v : jsvalue) (key : string) : option jsvalue :=
  match v with
  | JObj props => assoc key props
  | JArr items =>
      if String.eqb key "length" then Some (JNum (Finite (inject_Z (Z.of_nat (List.length items)))))
      else match array_index key with
           | Some i => nth_error items i
           | None => None
           end
  | JStr s =>
      if String.eqb key "length" then Some (JNum (Finite (inject_Z (Z.of_nat (String.length s)))))
      else match array_index key with
           | Some i => option_map (fun c => JStr (String c "")) (String.get i s)
           | None => None
           end
  | _ => None
  end.

(** The values that have a prototype chain, by the prototype it starts at:
    [Object.prototype], [Array.prototype], [String.prototype],
    [Number.prototype], [Boolean.prototype]. *)
Inductive kind : Type := KObject | KArray | KString | KNumber | KBoolean.

Definition kind_of (v : jsvalue) : option kind :=
  match v with
  | JUndefined | JNull => None
  | JBool _ => Some KBoolean
  | JNum _ => Some KNumber
  | JStr _ => Some KString
  | JArr _ => Some KArray
  | JObj _ => Some KObject
  end.

Section Prototypes.
(** [builtin k key]: some object on the prototype chain of the values of
    kind [k] has a property named [key] ([toString], [constructor],
    [__proto__], ...). *)
Variable builtin : kind -> string -> bool.

(** [v?.[key]] for any key: [undefined] on [null] and [undefined]; the own
    property when there is one; else what the prototype chain supplies,
    [undefined] when it has no such member. *)
Definition read_prop (v : jsvalue) (key : string) : outcome jsvalue :=
  match kind_of v with
  | None => Returns JUndefined
  | Some k =>
      match own_prop v key with
      | Some x => Returns x
      | None => if builtin k key then Builtin else Returns JUndefined
      end
  end.
End Prototypes.

(** [s.split('.')]. *)
Fixpoint split_dot (s : string) : list string :=
  match s with
  | "" => [""]
  | String c rest =>
      let r := split_dot rest in
      if Ascii.eqb c "." then "" :: r
      else match r with
           | [] => [String c ""]
           | seg :: segs => String c seg :: segs
           end
  end.

Fixpoint span {A} (p : A -> bool) (l : list A) : list A * list A :=
  match l with
  | [] => ([], [])
  | x :: rest =>
      if p x then let '(yes, no) := span p rest in (x :: yes, no)
      else ([], l)
  end.

(** Line terminators, which [.] of a regular expression does not match. *)
Definition is_line_terminator (c : ascii) : bool :=
  Ascii.eqb c "010" || Ascii.eqb c "013".

(** [key.match(/^(.+)\[(\d+)\]$/)]: the two groups, when the key ends in a
    bracketed run of digits that something precedes.  The split is unique:
    the digits are the whole run before the closing bracket. *)
Definition match_array_key (key : string) : option (string * string) :=
  match rev (list_ascii_of_string key) with
  | "]"%char :: before =>
      match span is_digit before with
      | (d :: ds, "["%char :: (p :: ps)) =>
          if forallb (fun c => negb (is_line_terminator c)) (p :: ps)
          then Some (string_of_list_ascii (rev (p :: ps)),
                     string_of_list_ascii (rev (d :: ds)))
          else None
      | _ => None
      end
  | _ => None
  end.

(** [s.includes(needle)]. *)
Fixpoint includes (needle s : string) : bool :=
  String.prefix needle s ||
  match s with
  | "" => false
  | String _ rest => includes needle rest
  end.

(** White space that [parseFloat] skips (the code units below 256). *)
Definition is_space (c : ascii) : bool :=
  let n := nat_of_ascii c in
  ((9 <=? n)%nat && (n <=? 13)%nat) || (n =? 32)%nat || (n =? 160)%nat.

Fixpoint drop_while {A} (p : A -> bool) (l : list A) : list A :=
  match l with
  | [] => []
  | x :: rest => if p x then drop_while p rest else l
  end.

Definition parse_sign (l : list ascii) : bool * list ascii :=
  match l with
  | "-"%char :: rest => (true, rest)
  | "+"%char :: rest => (false, rest)
  | _ => (false, l)
  end.

(** The exponent part of a decimal literal: [e] or [E], an optional sign and
    at least one digit; 0 when there is no such part. *)
Definition parse_exponent (l : list ascii) : Z :=
  match l with
  | c :: rest =>
      if Ascii.eqb c "e" || Ascii.eqb c "E" then
        let '(negative, rest') := parse_sign rest in
        match span is_digit rest' with
        | ([], _) => 0%Z
        | (ds, _) => if negative then (- Z.of_N (digits_N ds))%Z else Z.of_N (digits_N ds)
        end
      else 0%Z
  | [] => 0%Z
  end.

(** The longest prefix that is a decimal literal ([Infinity], or digits with
    an optional fraction and exponent, after an optional sign), as a number;
    NaN when there is none. *)
Definition parse_decimal (l : list ascii) : number :=
  let '(negative, rest) := parse_sign l in
  if String.prefix "Infinity" (string_of_list_ascii rest) then Infinity negative
  else
    let '(int_part, rest1) := span is_digit rest in
    let '(frac_part, rest2) :=
      match rest1 with
      | "."%char :: after => span is_digit after
      | _ => ([], rest1)
      end in
    match (int_part ++ frac_part)%list with
    | [] => NaN
    | mantissa =>
        let m := inject_Z (Z.of_N (digits_N mantissa)) in
        let e := (parse_exponent rest2 - Z.of_nat (List.length frac_part))%Z in
        let q := (m * Qpower 10 e)%Q in
        Finite (Qred (if negative then - q else q)%Q)
    end.

Definition parseFloat_string (s : string) : number :=
  parse_decimal (drop_while is_space (list_ascii_of_string s)).

Definition has_key (key : string) (props : list (string * jsvalue)) : bool :=
  match assoc key props with Some _ => true | None => false end.

(** Whether [String(v)] returns.  An object is printed by its [toString]
    method, and an own member of that name, which in JSON data is no
    function, hides the method of [Object.prototype]: the conversion throws.
    An array prints every one of its elements. *)
Fixpoint stringifies (v : jsvalue) : bool :=
  match v with
  | JObj props => negb (has_key "toString" props)
  | JArr items => forallb stringifies items
  | _ => true
  end.

(** The leading decimal literal of [String(v)], as a number.  A number
    prints as a literal that reads back as itself; an array prints its
    elements separated by commas, so what is read is the literal its first
    element starts with; [undefined], [null], booleans and objects print as
    text that starts with no literal. *)
Fixpoint leading_number (v : jsvalue) : number :=
  match v with
  | JNum n => n
  | JStr s => parseFloat_string s
  | JArr (first :: _) => leading_number first
  | _ => NaN
  end.

(** [parseFloat(v)]: [v] is converted to a string, which can throw, and the
    leading decimal literal of the string is read. *)
Definition parseFloat (v : jsvalue) : outcome number :=
  if stringifies v then Returns (leading_number v) else Throws.

Fixpoint replace_prop (key : string) (v : jsvalue) (props : list (string * jsvalue))
  : list (string * jsvalue) :=
  match props with
  | [] => []
  | (k, x) :: rest =>
      if String.eqb k key then (k, v) :: rest else (k, x) :: replace_prop key v rest
  end.

(** Own keys are enumerated with the array indices first, in ascending
    order, and the other keys after them in the order of their creation. *)
Definition enumerated_before (key k : string) : bool :=
  match array_index key, array_index k with
  | Some i, Some j => (i <? j)%nat
  | Some _, None => true
  | None, _ => false
  end.

Fixpoint add_prop (key : string) (v : jsvalue) (props : list (string * jsvalue))
  : list (string * jsvalue) :=
  match props with
  | [] => [(key, v)]
  | (k, x) :: rest =>
      if enumerated_before key k then (key, v) :: props
      else (k, x) :: add_prop key v rest
  end.

(** [o[key] = v] where the assignment defines or updates an own property
    of [o]: always so for a key other than [__proto__], and in the properties
    an object literal or a spread defines. *)
Definition set_prop (key : string) (v : jsvalue) (props : list (string * jsvalue))
  : list (string * jsvalue) :=
  if has_key key props then replace_prop key v props else add_prop key v props.

(** [o[key] = v] on an object [o] created by [{}]: its own properties, and
    whether the accessor [__proto__] of [Object.prototype] is still reached
    from it.  An assignment to [__proto__] that reaches the accessor creates
    no property: it makes [v] the prototype of [o] when [v] is an object, an
    array or [null], and does nothing for another [v].  The accessor is
    reached from the new prototype unless that is [null] or has an own
    member [__proto__]; once it is not reached, [__proto__] is a key like
    any other. *)
Definition assign (key : string) (v : jsvalue) (o : list (string * jsvalue) * bool)
  : list (string * jsvalue) * bool :=
  let '(props, accessor) := o in
  if String.eqb key "__proto__" && accessor
  then (props,
        match v with
        | JNull => false
        | JObj members => negb (has_key "__proto__" members)
        | _ => true
        end)
  else (set_prop key v props, accessor).

End JS.

Import JS.

(** ** [src/services/apiService.js]: the path engine *)

(** The objects [exploreJSONPaths] pushes: [{path, value, type, sample}];
    [sample] is present on the descriptor of a non-empty array only. *)
Module PathInfo.
Record t : Type := mk { path : string; value : jsvalue; type : string; sample : option jsvalue }.
End PathInfo.

(** The objects of a widget's [selectedFields], as [transformAPIData]
    destructures them: [{path, displayName}]. *)
Module FieldMapping.
Record t : Type := mk { path : string; displayName : string }.
End FieldMapping.

Module PathEngine.

Section Paths.
Variable builtin : kind -> string -> bool.

(** The callback of the [reduce] in [getNestedValue]. *)
Definition step (current : jsvalue) (key : string) : outcome jsvalue :=
  match match_array_key key with
  | Some (arrayKey, index) =>
      and_then (read_prop builtin current arrayKey) (fun found =>
      read_prop builtin found (show_N (parseInt_digits index)))
  | None => read_prop builtin current key
  end.

(** [segments.reduce(step, obj)]. *)
Definition reduce (segments : list string) (obj : jsvalue) : outcome jsvalue :=
  fold_left (fun reached key => and_then reached (fun current => step current key))
    segments (Returns obj).

Definition getNestedValue (obj : jsvalue) (path : string) : outcome jsvalue :=
  if negb (truthy (JStr path)) || negb (truthy obj) then Returns obj
  else reduce (split_dot path) obj.

(** [getNestedValue] called with any value in the position of the path:
    a falsy one is passed through by the same guard; for a truthy one that
    is not a string, [path.split] is read and called: it is no function
    when it is an own member or [undefined], and the call throws. *)
Definition getNestedValue_any (obj path : jsvalue) : outcome jsvalue :=
  match path with
  | JStr s => getNestedValue obj s
  | _ =>
      if negb (truthy path) || negb (truthy obj) then Returns obj
      else and_then (read_prop builtin path "split") (fun _ => Throws)
  end.

(** The object built by [const transformed = {}] and the [forEach] that
    assigns [transformed[displayName] = getNestedValue(item, path)]; a row
    is given by its own properties. *)
Definition build_row (item : jsvalue) (fieldMappings : list FieldMapping.t)
  : outcome jsvalue :=
  and_then
    (fold_left
       (fun built f =>
          and_then built (fun transformed =>
          and_then (getNestedValue item (FieldMapping.path f)) (fun value =>
          Returns (assign (FieldMapping.displayName f) value transformed))))
       fieldMappings (Returns ([], true)))
    (fun transformed => Returns (JObj (fst transformed))).

(** [parseFloat(value) || 0]. *)
Definition or_zero (n : number) : number :=
  if truthy (JNum n) then n else Finite 0.

Definition data_point (data : jsvalue) (f : FieldMapping.t) : outcome jsvalue :=
  and_then (getNestedValue data (FieldMapping.path f)) (fun value =>
  and_then (parseFloat value) (fun n =>
  Returns (JObj [("name", JStr (FieldMapping.displayName f));
                 ("value", JNum (or_zero n))]))).

(** [fieldMappings] is an array (always truthy), so [!fieldMappings] is
    false and the guard reads [!data || fieldMappings.length === 0]. *)
Definition transformAPIData (data : jsvalue) (fieldMappings : list FieldMapping.t)
  (widgetType : string) : outcome (list jsvalue) :=
  if negb (truthy data) || (List.length fieldMappings =? 0)%nat then Returns []
  else
    match data with
    | JArr items => map_outcome (fun item => build_row item fieldMappings) items
    | _ =>
        if String.eqb widgetType "chart" && (1 <? List.length fieldMappings)%nat
        then map_outcome (data_point data) fieldMappings
        else and_then (build_row data fieldMappings) (fun row => Returns [row])
    end.
End Paths.

Definition is_structured (valueType : string) : bool :=
  String.eqb valueType "object" || String.eqb valueType "array".

Section Explore.
Variable maxDepth : Z.

(** The inner function [explore]; the list is what it pushes on [paths],
    in order.  [Object.keys(current).forEach] with [current[key]] visits
    the own properties in order. *)
Fixpoint explore (current : jsvalue) (currentPath : string) (depth : Z)
  {struct current} : list PathInfo.t :=
  if (depth >? maxDepth)%Z then []
  else
    match current with
    | JNull | JUndefined => []
    | JArr items =>
        match items with
        | [] => []
        | first :: _ =>
            PathInfo.mk currentPath
              (JStr ("Array(" ++ show_nat (List.length items) ++ ")"))
              "array" (Some first)
            :: explore first (currentPath ++ "[0]") (depth + 1)%Z
        end
    | JObj props =>
        flat_map
          (fun kv =>
             let '(key, value) := kv in
             let newPath :=
               if truthy (JStr currentPath) then currentPath ++ "." ++ key else key in
             let valueType := type_tag value in
             PathInfo.mk newPath
               (if is_structured valueType then JStr ("{" ++ valueType ++ "}") else value)
               valueType None
             :: (if is_structured valueType then explore value newPath (depth + 1)%Z
                 else []))
          props
    | _ => []
    end.
End Explore.

Definition exploreJSONPaths (obj : jsvalue) (prefix : string) (maxDepth : Z)
  : list PathInfo.t :=
  explore maxDepth obj prefix 0.

End PathEngine.

(** ** [src/services/apiService.js]: the response cache and the fetch *)

(** The values of [apiCache]: [{data, timestamp, expiresAt}]. *)
Module CacheEntry.
Record t : Type := mk { data : jsvalue; timestamp : Q; expiresAt : number }.
End CacheEntry.

(** What [fetchFromAPI] resolves to: [{success, data, error, cached}];
    the failure results have no [cached] property. *)
Module FetchResult.
Record t : Type :=
    mk { success : bool; data : jsvalue; error : option string; cached : option bool }.
End FetchResult.

(** A thrown [Error] object. *)
Module Error.
Record t : Type := mk { name : string; message : string }.
End Error.

(** A [Response]: its status line and what [await response.json()] gives,
    the parsed body or the error it throws. *)
Module Response.
Record t : Type := mk { status : N; statusText : string; json : Error.t + jsvalue }.
(** [response.ok]: the status is in the range 200-299. *)
Definition ok (r : t) : bool := (200 <=? status r)%N && (status r <=? 299)%N.
End Response.

(** What [testAPIEndpoint] resolves to: [{success, data, paths, error}] on
    success, the failed result of the fetch (which has no [paths]) otherwise. *)
Module TestResult.
Record t : Type :=
  mk { success : bool; data : jsvalue; paths : option (list PathInfo.t);
       error : option string }.
End TestResult.

(** The elements of [urls] in the object [getCacheStats] returns. *)
Module UrlStat.
Record t : Type := mk { url : string; age : Z; expiresIn : number }.
End UrlStat.

(** The object [getCacheStats] returns. *)
Module CacheStats.
Record t : Type :=
  mk { totalEntries : nat; activeEntries : nat; expiredEntries : nat;
       urls : list UrlStat.t }.
End CacheStats.

Module Service.

(** The state the module works on: the [apiCache] map, the clock behind
    [Date.now()] and, for the statements about network access, the URLs
    handed to [fetch] so far. *)
Record World : Type :=
  mkWorld { apiCache : gmap string CacheEntry.t; clock : Q; requests : list string }.

Definition M (A : Type) : Type := World -> A * World.

Definition ret {A} (a : A) : M A := fun w => (a, w).
Definition bind {A B} (m : M A) (k : A -> M B) : M B :=
  fun w => let '(a, w') := m w in k a w'.

Notation "x <- m ;; k" := (bind m (fun x => k))
  (at level 63, m at next level, right associativity).
Notation "m ;;; k" := (bind m (fun _ => k))
  (at level 63, right associativity).

Definition Date_now : M Q := fun w => (clock w, w).
Definition apiCache_get (url : string) : M (option CacheEntry.t) :=
  fun w => (apiCache w !! url, w).
Definition apiCache_set (url : string) (e : CacheEntry.t) : M unit :=
  fun w => (tt, mkWorld (<[url := e]> (apiCache w)) (clock w) (requests w)).
Definition apiCache_delete (url : string) : M unit :=
  fun w => (tt, mkWorld (delete url (apiCache w)) (clock w) (requests w)).

(** Time passing between two calls. *)
Definition advance (elapsed : Q) (w : World) : World :=
  mkWorld (apiCache w) (clock w + elapsed)%Q (requests w).

Definition DEFAULT_CACHE_DURATION : number := Finite (5 * 1000).

Definition CORS_PROXY : string := "https://cors-anywhere.herokuapp.com/".

(** Returns the cached data, or [null]. *)
Definition getCachedData (url : string) : M jsvalue :=
  cached <- apiCache_get url ;;
  match cached with
  | None => ret JNull
  | Some cached =>
      now <- Date_now ;;
      if number_gt (Finite now) (CacheEntry.expiresAt cached)
      then apiCache_delete url ;;; ret JNull
      else ret (CacheEntry.data cached)
  end.

(** [duration] is in milliseconds ([DEFAULT_CACHE_DURATION] when the
    caller leaves it out). *)
Definition setCachedData (url : string) (data : jsvalue) (duration : number) : M unit :=
  now <- Date_now ;;
  apiCache_set url (CacheEntry.mk data now (number_add (Finite now) duration)).

(** The body of the loop in [clearExpiredCache]. *)
Definition sweep_step (now : Q) (cache : gmap string CacheEntry.t)
  (entry : string * CacheEntry.t) : gmap string CacheEntry.t :=
  let '(url, cached) := entry in
  if number_gt (Finite now) (CacheEntry.expiresAt cached) then delete url cache else cache.

(** The loop over [apiCache.entries()], deleting as it goes. *)
Definition clearExpiredCache : M unit :=
  fun w =>
    let now := clock w in
    (tt, mkWorld (fold_left (sweep_step now) (map_to_list (apiCache w)) (apiCache w))
           (clock w) (requests w)).

Section Network.
(** The network: the options bag of a request (to which the call adds the
    default [Content-Type] header), what a request settles to (the error
    [fetch] rejects with, or the response), and how long that takes. *)
Variable Options : Type.
Variable respond : string -> Options -> Error.t + Response.t.
Variable latency : string -> Q.

Definition fetch (url : string) (options : Options) : M (Error.t + Response.t) :=
  fun w =>
    (respond url options,
     mkWorld (apiCache w) (clock w + latency url)%Q (requests w ++ [url])).

(** The body of either [try] block, for the address [target]: the result
    it returns, or the error it throws. *)
Definition try_fetch (target url : string) (options : Options) (useCache : bool)
  (cacheDuration : number) : M (Error.t + FetchResult.t) :=
  settled <- fetch target options ;;
  match settled with
  | inl error => ret (inl error)
  | inr response =>
      if negb (Response.ok response)
      then ret (inl (Error.mk "Error"
                 ("HTTP " ++ show_N (Response.status response) ++ ": "
                  ++ Response.statusText response)))
      else
        match Response.json response with
        | inl error => ret (inl error)
        | inr data =>
            (if useCache then setCachedData url data (number_scale cacheDuration 1000)
             else ret tt) ;;;
            ret (inr (FetchResult.mk true data None (Some false)))
        end
  end.

Definition failure (error : string) : FetchResult.t :=
  FetchResult.mk false JNull (Some error) None.

(** The test of the [catch] block:
    [error.message.includes('CORS') || error.name === 'TypeError']. *)
Definition is_cors_or_network (error : Error.t) : bool :=
  includes "CORS" (Error.message error) || String.eqb (Error.name error) "TypeError".

(** The error a [try] block ends with, if any, given what its [fetch]
    settled to: the rejection, the error thrown for a status outside
    200-299, or the error of [response.json()]. *)
Definition thrown_by_try (settled : Error.t + Response.t) : option Error.t :=
  match settled with
  | inl error => Some error
  | inr response =>
      if negb (Response.ok response)
      then Some (Error.mk "Error"
                   ("HTTP " ++ show_N (Response.status response) ++ ": "
                    ++ Response.statusText response))
      else match Response.json response with
           | inl error => Some error
           | inr _ => None
           end
  end.

(** Everything after the cache check. *)
Definition fetch_uncached (url : string) (options : Options) (useCache : bool)
  (cacheDuration : number) : M FetchResult.t :=
  direct <- try_fetch url url options useCache cacheDuration ;;
  match direct with
  | inr result => ret result
  | inl error =>
      if is_cors_or_network error
      then
        proxied <- try_fetch (CORS_PROXY ++ url) url options useCache cacheDuration ;;
        match proxied with
        | inr result => ret result
        | inl proxyError =>
            ret (failure ("CORS Error: " ++ Error.message proxyError
                          ++ ". Try enabling CORS in your API or use a proxy."))
        end
      else
        ret (failure (if truthy (JStr (Error.message error)) then Error.message error
                      else "Failed to fetch data from API"))
  end.

Definition fetchFromAPI (url : string) (options : Options) (useCache : bool)
  (cacheDuration : number) : M FetchResult.t :=
  if useCache then
    cachedData <- getCachedData url ;;
    if truthy cachedData
    then ret (FetchResult.mk true cachedData None (Some true))
    else fetch_uncached url options useCache cacheDuration
  else fetch_uncached url options useCache cacheDuration.

(** [options] is the empty object [{}] the call passes, and the duration is
    the default, 30, of [fetchFromAPI]; [exploreJSONPaths] runs with its
    defaults, the empty prefix and depth 5. *)
Definition testAPIEndpoint (url : string) (options : Options) : M TestResult.t :=
  result <- fetchFromAPI url options false (Finite 30) ;;
  if FetchResult.success result
  then ret (TestResult.mk true (FetchResult.data result)
              (Some (PathEngine.exploreJSONPaths (FetchResult.data result) "" 5)) None)
  else ret (TestResult.mk (FetchResult.success result) (FetchResult.data result) None
              (FetchResult.error result)).
End Network.

(** Returns the number of entries it cleared. *)
Definition clearAllCache : M nat :=
  fun w => (size (apiCache w), mkWorld ∅ (clock w) (requests w)).

(** Returns whether there was an entry to delete. *)
Definition clearCacheForUrl (url : string) : M bool :=
  fun w =>
    (match apiCache w !! url with Some _ => true | None => false end,
     mkWorld (delete url (apiCache w)) (clock w) (requests w)).

(** The entry of [urls] for one cache entry; [Math.floor] of a rational is
    [Qfloor]. *)
Definition url_stat (now : Q) (entry : string * CacheEntry.t) : UrlStat.t :=
  let '(url, cache) := entry in
  UrlStat.mk url
    (Qfloor ((now - CacheEntry.timestamp cache) / 1000))
    (number_max_zero
       (number_floor (number_divide (number_sub (CacheEntry.expiresAt cache) (Finite now)) 1000))).

(** [entries] is [Array.from(apiCache.entries())], here in the order of
    [map_to_list]. *)
Definition getCacheStats : M CacheStats.t :=
  fun w =>
    let now := clock w in
    let entries := map_to_list (apiCache w) in
    (CacheStats.mk
       (List.length entries)
       (List.length
          (List.filter (fun entry => number_le (Finite now) (CacheEntry.expiresAt (snd entry)))
             entries))
       (List.length
          (List.filter (fun entry => number_gt (Finite now) (CacheEntry.expiresAt (snd entry)))
             entries))
       (map (url_stat now) entries),
     w).

End Service.

(** ** [src/components/widgets/WidgetContainer.js]: the cache duration *)
Module WidgetContainer.

Definition Qltb (a b : Q) : bool := negb (Qle_bool b a).

(** The [cacheDuration] that [fetchData(skipCache)] computes from
    [widget.refreshInterval], in seconds. *)
Definition cacheDuration (skipCache : bool) (refreshInterval : Q) : Q :=
  if skipCache then 0
  else if Qltb refreshInterval 30 then Qmin 5 (refreshInterval / 3)
  else if Qltb refreshInterval 120 then refreshInterval / 4
  else Qmin 30 (refreshInterval / 4).

(** The same lines for any number in [widget.refreshInterval]: the settings
    dialog stores [parseInt] of its field, which is NaN for an emptied one. *)
Definition cacheDuration_of (skipCache : bool) (refreshInterval : number) : number :=
  if skipCache then Finite 0
  else if number_lt refreshInterval (Finite 30)
       then number_min (Finite 5) (number_divide refreshInterval 3)
  else if number_lt refreshInterval (Finite 120) then number_divide refreshInterval 4
  else number_min (Finite 30) (number_divide refreshInterval 4).

End WidgetContainer.


(** ** [src/store/dashboardStore.js]: the widget list *)

(** The state is the array [widgets] of widget objects; a widget is the list
    of its own properties.  The clock reading [Date.now()] and the text
    [new Date().toISOString()] are handed in.  The [persist] wrapper, which
    copies the state to local storage, is left out. *)
Module DashboardStore.

Definition widget : Type := list (string * jsvalue).

(** [...source] inside an object literal whose properties so far are
    [target]: each own property of [source] is defined in turn. *)
Definition spread (target source : widget) : widget :=
  fold_left (fun acc kv => set_prop (fst kv) (snd kv) acc) source target.

(** [w.id === widgetId] for a string [widgetId].  A widget of the store is
    created with an [id] of its own, and the prototype of objects defines no
    [id]: [w.id] is the own property, or [undefined]. *)
Definition has_id (widgetId : string) (w : widget) : bool :=
  match assoc "id" w with
  | Some (JStr s) => String.eqb s widgetId
  | _ => false
  end.

Definition addWidget (now : N) (iso : string) (config : widget) (widgets : list widget)
  : list widget :=
  let newWidget :=
    set_prop "createdAt" (JStr iso)
      (set_prop "lastFetched" JNull
         (set_prop "error" JNull
            (set_prop "loading" (JBool false)
               (set_prop "data" JNull
                  (spread [("id", JStr (show_N now))] config))))) in
  (widgets ++ [newWidget])%list.

Definition removeWidget (widgetId : string) (widgets : list widget) : list widget :=
  List.filter (fun w => negb (has_id widgetId w)) widgets.

Definition updateWidget (widgetId : string) (updates : widget) (widgets : list widget)
  : list widget :=
  map (fun w => if has_id widgetId w then spread (spread [] w) updates else w) widgets.

Definition updateWidgetData (widgetId : string) (data error : jsvalue) (iso : string)
  (widgets : list widget) : list widget :=
  map (fun w =>
         if has_id widgetId w
         then set_prop "lastFetched" (JStr iso)
                (set_prop "loading" (JBool false)
                   (set_prop "error" error
                      (set_prop "data" data (spread [] w))))
         else w)
    widgets.

Definition setWidgetLoading (widgetId : string) (loading : jsvalue) (widgets : list widget)
  : list widget :=
  map (fun w => if has_id widgetId w then set_prop "loading" loading (spread [] w) else w)
    widgets.

Definition reorderWidgets (newOrder widgets : list widget) : list widget := newOrder.

Definition clearWidgets (widgets : list widget) : list widget := [].

End DashboardStore.

(** ** [src/components/modals/AddWidgetModalNew.js]: the selected fields *)

(** The objects of [selectedFields]: [{path, displayName, type}]. *)
Module SelectedField.
Record t : Type := mk { path : string; displayName : string; type : string }.
(** What [transformAPIData] reads of one. *)
Definition mapping (f : t) : FieldMapping.t := FieldMapping.mk (path f) (displayName f).
End SelectedField.

Module FieldSelection.

(** The new [selectedFields] that [handleFieldToggle] sets. *)
Definition handleFieldToggle (path displayName type : string)
  (selectedFields : list SelectedField.t) : list SelectedField.t :=
  match List.find (fun f => String.eqb (SelectedField.path f) path) selectedFields with
  | Some existing =>
      List.filter (fun f => negb (String.eqb (SelectedField.path f) path)) selectedFields
  | None => (selectedFields ++ [SelectedField.mk path displayName type])%list
  end.

End FieldSelection.

(** ** [src/components/widgets/WidgetContainer.js]: [fetchData] *)

(** What [fetchData] reads of its [widget]. *)
Module WidgetProps.
Record t : Type :=
  mk { id : string; apiUrl : string; refreshInterval : number;
       selectedFields : option (list SelectedField.t); type : string }.
End WidgetProps.

Module FetchData.
Import Service.

(** The cache, clock and request log of the service with the widgets of the
    store. *)
Record App : Type := mkApp { world : World; widgets : list DashboardStore.widget }.

Definition error_value (error : option string) : jsvalue :=
  match error with
  | Some message => JStr message
  | None => JNull
  end.

Section FetchData.
Variable Options : Type.
Variable respond : string -> Options -> Error.t + Response.t.
Variable latency : string -> Q.
(** The object [{}] passed as options, and [new Date().toISOString()] at a
    clock reading. *)
Variable emptyOptions : Options.
Variable toISOString : Q -> string.

Variable builtin : kind -> string -> bool.

(** [widget.selectedFields && widget.selectedFields.length > 0
    ? transformAPIData(result.data, widget.selectedFields, widget.type)
    : result.data]. *)
Definition transformedData (widget : WidgetProps.t) (result : FetchResult.t)
  : outcome jsvalue :=
  match WidgetProps.selectedFields widget with
  | Some (f :: fs) =>
      and_then
        (PathEngine.transformAPIData builtin (FetchResult.data result)
           (map SelectedField.mapping (f :: fs)) (WidgetProps.type widget))
        (fun rows => Returns (JArr rows))
  | _ => Returns (FetchResult.data result)
  end.

(** One run of [fetchData(skipCache)], from the call to the store update
    that follows the awaited fetch, with nothing else happening in between:
    how the run ends, and the state it ends in.  When the transformation of
    the data does not return, the run ends there, after the fetch and before
    the store update. *)
Definition fetchData (widget : WidgetProps.t) (skipCache : bool) (app : App)
  : outcome unit * App :=
  if negb (truthy (JStr (WidgetProps.apiUrl widget))) then (Returns tt, app)
  else
    let loading :=
      DashboardStore.setWidgetLoading (WidgetProps.id widget) (JBool true) (widgets app) in
    let cacheDuration :=
      WidgetContainer.cacheDuration_of skipCache (WidgetProps.refreshInterval widget) in
    let '(result, w) :=
      fetchFromAPI Options respond latency (WidgetProps.apiUrl widget) emptyOptions
        (negb skipCache) cacheDuration (world app) in
    let iso := toISOString (clock w) in
    if FetchResult.success result then
      match transformedData widget result with
      | Returns data =>
          (Returns tt,
           mkApp w (DashboardStore.updateWidgetData (WidgetProps.id widget) data JNull
                      iso loading))
      | Throws => (Throws, mkApp w loading)
      | Builtin => (Builtin, mkApp w loading)
      end
    else
      (Returns tt,
       mkApp w (DashboardStore.updateWidgetData (WidgetProps.id widget) JNull
                  (error_value (FetchResult.error result)) iso loading)).
End FetchData.

End FetchData.

(** ** [src/components/modals/JSONFieldExplorer.js] *)

Module JSONFieldExplorer.

(** [typeof v]. *)
Definition typeof (v : jsvalue) : string :=
  match v with
  | JUndefined => "undefined"
  | JNull => "object"
  | JBool _ => "boolean"
  | JNum _ => "number"
  | JStr _ => "string"
  | JArr _ => "object"
  | JObj _ => "object"
  end.

Definition is_null (v : jsvalue) : bool :=
  match v with JNull => true | _ => false end.

(** [typeof value === 'object' && value !== null]. *)
Definition isExpandable (value : jsvalue) : bool :=
  String.eqb (typeof value) "object" && negb (is_null value).

(** [toggleExpand(path)] on the set of expanded paths. *)
Definition toggleExpand (path : string) (expandedPaths : gset string) : gset string :=
  if bool_decide (path ∈ expandedPaths)
  then expandedPaths ∖ {[path]}
  else expandedPaths ∪ {[path]}.

Section Render.
Variable expandedPaths : gset string.

(** [renderJSON(data, path)], read for the clicks it offers: the list of the
    calls [onFieldToggle(currentPath, key, typeof value)] that the buttons of
    the rendered tree make, in the order of the tree.  A button of an
    expandable value is disabled; the subtree of a value is rendered when its
    path is expanded. *)
Fixpoint renderJSON (data : jsvalue) (path : string) {struct data}
  : list SelectedField.t :=
  match data with
  | JNull | JUndefined => []
  | JArr items =>
      match items with
      | [] => []
      | first :: _ => renderJSON first (path ++ "[0]")
      end
  | JObj props =>
      flat_map
        (fun kv =>
           let '(key, value) := kv in
           let currentPath := if truthy (JStr path) then path ++ "." ++ key else key in
           let isExpanded := bool_decide (currentPath ∈ expandedPaths) in
           ((if negb (isExpandable value)
             then [SelectedField.mk currentPath key (typeof value)] else [])
            ++ (if isExpanded && isExpandable value then renderJSON value currentPath
                else []))%list)
        props
  | _ => []
  end.

(** The component: nothing to click when [!jsonData]. *)
Definition clicks (jsonData : jsvalue) : list SelectedField.t :=
  if negb (truthy jsonData) then [] else renderJSON jsonData "".
End Render.

End JSONFieldExplorer.

(** ** [src/components/widgets/StockTable.js]: pagination *)

Module StockTable.

(** [array.slice(start, end)] with integer arguments: a negative index counts
    from the end, and both are clamped to the array. *)
Definition slice {A} (start finish : Z) (l : list A) : list A :=
  let len := Z.of_nat (List.length l) in
  let k := if (start <? 0)%Z then Z.max (len + start) 0 else Z.min start len in
  let final := if (finish <? 0)%Z then Z.max (len + finish) 0 else Z.min finish len in
  firstn (Z.to_nat (final - k)) (skipn (Z.to_nat k) l).

Definition itemsPerPage : Z := 10.

(** [Math.ceil(filteredData.length / itemsPerPage)]. *)
Definition totalPages {A} (filteredData : list A) : Z :=
  Qceiling (inject_Z (Z.of_nat (List.length filteredData)) / inject_Z itemsPerPage).

Definition startIndex (currentPage : Z) : Z := ((currentPage - 1) * itemsPerPage)%Z.
Definition endIndex (currentPage : Z) : Z := (startIndex currentPage + itemsPerPage)%Z.

Definition currentData {A} (currentPage : Z) (filteredData : list A) : list A :=
  slice (startIndex currentPage) (endIndex currentPage) filteredData.

(** The page [goToPage(page)] sets. *)
Definition goToPage {A} (page : Z) (filteredData : list A) : Z :=
  Z.max 1 (Z.min page (totalPages filteredData)).

(** The pages the pagination bar counts: [1 .. totalPages]. *)
Definition pages {A} (filteredData : list A) : list Z :=
  map (fun i => Z.of_nat (S i)) (seq 0 (Z.to_nat (totalPages filteredData))).

End StockTable.

(** ** Statements: auxiliary definitions *)
Module Notions.
Import PathEngine.





(** A string that starts with a decimal literal: after white space and an
    optional sign come [Infinity], a digit, or a point and a digit. *)
Definition starts_literal (s : string) : bool :=
  let '(_, rest) := parse_sign (drop_while is_space (list_ascii_of_string s)) in
  String.prefix "Infinity" (string_of_list_ascii rest)
  || match rest with
     | c :: after =>
         is_digit c
         || (Ascii.eqb c "." && match after with d :: _ => is_digit d | [] => false end)
     | [] => false
     end.



Section Members.
Variable builtin : kind -> string -> bool.


End Members.

End Notions.

Module MoreNotions.
Import PathEngine.

Definition is_array (v : jsvalue) : bool :=
  match v with JArr _ => true | _ => false end.

Definition is_path_breaker (c : ascii) : bool :=
  Ascii.eqb c "." || is_line_terminator c.

(** A key that a path can carry as one segment: not empty, without a dot or
    a line terminator, and not itself of the form [ident[digits]]. *)
Definition simple_key (key : string) : bool :=
  negb (String.eqb key "")
  && forallb (fun c => negb (is_path_breaker c)) (list_ascii_of_string key)
  && match match_array_key key with Some _ => false | None => true end.

Fixpoint distinct (keys : list string) : bool :=
  match keys with
  | [] => true
  | key :: rest => negb (existsb (String.eqb key) rest) && distinct rest
  end.

(** Data whose paths can be walked back: along what the explorer visits
    (the members of objects, the element 0 of arrays), every object has
    distinct simple keys and no array has an array as its element 0. *)
Fixpoint well_keyed (v : jsvalue) : bool :=
  match v with
  | JObj props =>
      distinct (map fst props)
      && (fix members (l : list (string * jsvalue)) : bool :=
            match l with
            | [] => true
            | kv :: rest => simple_key (fst kv) && well_keyed (snd kv) && members rest
            end) props
  | JArr (first :: _) => negb (is_array first) && well_keyed first
  | _ => true
  end.

(** What a descriptor says of the value found at its path. *)
Definition describes (d : PathInfo.t) (found : jsvalue) : Prop :=
  type_tag found = PathInfo.type d
  /\ (is_structured (PathInfo.type d) = false -> PathInfo.value d = found).

(** Where a walk over the data stands: [segs] are the segments of
    [currentPath] (none at the root), walking them from the root reaches [v],
    and an array has been reached through a simple key. *)
Definition stands_at (builtin : kind -> string -> bool) (root v : jsvalue)
  (currentPath : string) (segs : list string) : Prop :=
  (currentPath = "" -> segs = [])
  /\ (currentPath <> "" -> split_dot currentPath = segs)
  /\ reduce builtin segs root = Returns v
  /\ (is_array v = true ->
      exists init key, segs = (init ++ [key])%list /\ simple_key key = true).

End MoreNotions.

Module Scenario.
Import Service.

(** An empty cache at clock reading 1000 with no request made. *)
Definition w0 : World := mkWorld ∅ 1000 [].

(** A network that answers every request with [200 OK] and the body [body]. *)
Definition always_ok (body : jsvalue) (url : string) (options : unit)
  : Error.t + Response.t :=
  inr (Response.mk 200 "OK" (inr body)).

(** A server that answers [403] with a status text mentioning CORS, while the
    proxy answers [200 OK] with the body [7]. *)
Definition cors_status_text (url : string) (options : unit) : Error.t + Response.t :=
  if String.prefix CORS_PROXY url
  then inr (Response.mk 200 "OK" (inr (num 7)))
  else inr (Response.mk 403 "CORS policy" (inr JNull)).

(** A server that answers [404 Not Found]. *)
Definition not_found (url : string) (options : unit) : Error.t + Response.t :=
  inr (Response.mk 404 "Not Found" (inr JNull)).

Definition no_latency (url : string) : Q := 0.

(** At clock reading 1000: an entry that expired at 500 and one that lives
    until 1500. *)
Definition stale : CacheEntry.t := CacheEntry.mk (num 1) 0 (Finite 500).
Definition live : CacheEntry.t := CacheEntry.mk (num 2) 900 (Finite 1500).
Definition w_two : World := mkWorld (<["stale" := stale]> (<["live" := live]> ∅)) 1000 [].

(** A body with an object, an array and a number below each other, the
    descriptor and the click of its one number. *)
Definition quotes : jsvalue :=
  JObj [("data", JObj [("rates", JArr [JObj [("usd", num 1)]])])].
Definition usd : PathInfo.t := PathInfo.mk "data.rates[0].usd" (num 1) "number" None.
Definition usd_click : SelectedField.t := SelectedField.mk "data.rates[0].usd" "usd" "number".

(** A body that is an array at the top, and the descriptor of the number in
    its element 0. *)
Definition quote_list : list jsvalue := [JObj [("usd", num 1)]].
Definition usd_in_list : PathInfo.t := PathInfo.mk "[0].usd" (num 1) "number" None.


(** A runtime: the names that the standard prototypes define, for
    [Object.prototype], which every chain ends in, and for the prototypes of
    arrays, strings, numbers and booleans. *)
Definition object_members : list string :=
  ["constructor"; "__proto__"; "hasOwnProperty"; "isPrototypeOf";
   "propertyIsEnumerable"; "toLocaleString"; "toString"; "valueOf";
   "__defineGetter__"; "__defineSetter__"; "__lookupGetter__"; "__lookupSetter__"].
Definition array_members : list string :=
  ["at"; "concat"; "copyWithin"; "entries"; "every"; "fill"; "filter"; "find";
   "findIndex"; "findLast"; "findLastIndex"; "flat"; "flatMap"; "forEach";
   "includes"; "indexOf"; "join"; "keys"; "lastIndexOf"; "map"; "pop"; "push";
   "reduce"; "reduceRight"; "reverse"; "shift"; "slice"; "some"; "sort"; "splice";
   "toReversed"; "toSorted"; "toSpliced"; "unshift"; "values"; "with"].
Definition string_members : list string :=
  ["anchor"; "at"; "big"; "blink"; "bold"; "charAt"; "charCodeAt"; "codePointAt";
   "concat"; "endsWith"; "fixed"; "fontcolor"; "fontsize"; "includes"; "indexOf";
   "isWellFormed"; "italics"; "lastIndexOf"; "link"; "localeCompare"; "match";
   "matchAll"; "normalize"; "padEnd"; "padStart"; "repeat"; "replace"; "replaceAll";
   "search"; "slice"; "small"; "split"; "startsWith"; "strike"; "sub"; "substr";
   "substring"; "sup"; "toLocaleLowerCase"; "toLocaleUpperCase"; "toLowerCase";
   "toUpperCase"; "toWellFormed"; "trim"; "trimEnd"; "trimLeft"; "trimRight";
   "trimStart"].
Definition number_members : list string := ["toExponential"; "toFixed"; "toPrecision"].

Definition builtin (k : kind) (key : string) : bool :=
  existsb (String.eqb key)
    (object_members ++
     match k with
     | KObject | KBoolean => []
     | KArray => array_members
     | KString => string_members
     | KNumber => number_members
     end).

End Scenario.

(** ** Properties *)
Module Properties.
Import PathEngine Service WidgetContainer Notions.

Lemma Qltb_true (a b : Q) : Qltb a b = true <-> (a < b)%Q.
Proof.
  unfold Qltb. rewrite negb_true_iff. split.
  - intros H. apply Qnot_le_lt. intros Hle. apply Qle_bool_iff in Hle. congruence.
  - intros H. destruct (Qle_bool b a) eqn:E; [|reflexivity].
    apply Qle_bool_iff in E. exfalso. exact (Qlt_not_le _ _ H E).
Qed.

Lemma Qltb_false (a b : Q) : Qltb a b = false <-> (b <= a)%Q.
Proof.
  unfold Qltb. rewrite negb_false_iff. apply Qle_bool_iff.
Qed.

(** *** Comparisons of numbers *)

Lemma number_gt_Finite (a b : Q) : number_gt (Finite a) (Finite b) = true <-> (b < a)%Q.
Proof. exact (Qltb_true b a). Qed.

Lemma number_gt_Finite_false (a b : Q) :
  number_gt (Finite a) (Finite b) = false <-> (a <= b)%Q.
Proof. exact (Qltb_false b a). Qed.

Lemma number_le_Finite (a b : Q) : number_le (Finite a) (Finite b) = true <-> (a <= b)%Q.
Proof. apply Qle_bool_iff. Qed.

(** An expiry is behind the clock, or the clock has not passed it, or it is
    NaN: exactly one of the three. *)
Lemma expiry_cases (now : Q) (expiresAt : number) :
  (number_gt (Finite now) expiresAt = true /\ number_le (Finite now) expiresAt = false
   /\ is_NaN expiresAt = false)
  \/ (number_gt (Finite now) expiresAt = false /\ number_le (Finite now) expiresAt = true
      /\ is_NaN expiresAt = false)
  \/ (number_gt (Finite now) expiresAt = false /\ number_le (Finite now) expiresAt = false
      /\ is_NaN expiresAt = true).
Proof.
  destruct expiresAt as [|[]|x]; cbn; auto.
  unfold number_gt, number_lt. destruct (Qle_bool now x); cbn; auto.
Qed.

(** *** The JavaScript fragment: what the string functions compute *)

Lemma chars_app (a b : string) :
  list_ascii_of_string (a ++ b) = (list_ascii_of_string a ++ list_ascii_of_string b)%list.
Proof. induction a as [|c a IH]; simpl; [reflexivity|now rewrite IH]. Qed.

Lemma string_of_chars_app (a b : list ascii) :
  string_of_list_ascii (a ++ b)%list = string_of_list_ascii a ++ string_of_list_ascii b.
Proof. induction a as [|c a IH]; simpl; [reflexivity|now rewrite IH]. Qed.

Lemma span_spec {A} (p : A -> bool) (l : list A) :
  forall yes no, span p l = (yes, no) ->
    l = (yes ++ no)%list /\ forallb p yes = true
    /\ match no with [] => True | x :: _ => p x = false end.
Proof.
  induction l as [|x l IH]; simpl; intros yes no H.
  - inversion H. auto.
  - destruct (p x) eqn:E.
    + destruct (span p l) as [yes' no']. inversion H; subst.
      destruct (IH _ _ eq_refl) as (-> & Hall & Hno). simpl. rewrite E. auto.
    + inversion H; subst. simpl. auto.
Qed.

Lemma span_app_stop {A} (p : A -> bool) (yes : list A) (x : A) (rest : list A) :
  forallb p yes = true -> p x = false -> span p (yes ++ x :: rest)%list = (yes, x :: rest).
Proof.
  induction yes as [|y yes IH]; simpl; intros Hall Hx.
  - now rewrite Hx.
  - apply andb_true_iff in Hall as [Hy Hall]. now rewrite Hy, IH.
Qed.

Lemma forallb_rev {A} (p : A -> bool) (l : list A) : forallb p (rev l) = forallb p l.
Proof.
  induction l as [|x l IH]; simpl; [reflexivity|].
  rewrite forallb_app, IH. simpl. rewrite andb_true_r. apply andb_comm.
Qed.

Lemma match_array_key_complete (a d : string) :
  a <> "" -> d <> "" ->
  forallb (fun c => negb (is_line_terminator c)) (list_ascii_of_string a) = true ->
  forallb is_digit (list_ascii_of_string d) = true ->
  match_array_key (a ++ "[" ++ d ++ "]") = Some (a, d).
Proof.
  intros Ha Hd Hterm Hdig. unfold match_array_key.
  rewrite !chars_app. simpl list_ascii_of_string.
  rewrite !rev_app_distr. simpl rev. simpl app.
  rewrite <- app_assoc. simpl app.
  rewrite span_app_stop; [|now rewrite forallb_rev|reflexivity].
  destruct (rev (list_ascii_of_string d)) as [|d0 ds] eqn:Ed.
  { exfalso. apply Hd. apply (f_equal (@rev _)) in Ed. rewrite rev_involutive in Ed.
    apply (f_equal string_of_list_ascii) in Ed.
    now rewrite string_of_list_ascii_of_string in Ed. }
  destruct (rev (list_ascii_of_string a)) as [|p ps] eqn:Ea.
  { exfalso. apply Ha. apply (f_equal (@rev _)) in Ea. rewrite rev_involutive in Ea.
    apply (f_equal string_of_list_ascii) in Ea.
    now rewrite string_of_list_ascii_of_string in Ea. }
  change (rev ps ++ [p])%list with (rev (p :: ps)).
  change (rev ds ++ [d0])%list with (rev (d0 :: ds)).
  rewrite <- Ea, <- Ed, forallb_rev, Hterm, !rev_involutive.
  now rewrite !string_of_list_ascii_of_string.
Qed.

Lemma match_array_key_sound (key a d : string) :
  match_array_key key = Some (a, d) ->
  key = a ++ "[" ++ d ++ "]" /\ a <> "" /\ d <> ""
  /\ forallb is_digit (list_ascii_of_string d) = true
  /\ forallb (fun c => negb (is_line_terminator c)) (list_ascii_of_string a) = true.
Proof.
  unfold match_array_key.
  destruct (rev (list_ascii_of_string key)) as [|c before] eqn:Ekey; [discriminate|].
  destruct (Ascii.eqb c "]") eqn:Ec.
  2:{ destruct c as [[] [] [] [] [] [] [] []]; try discriminate Ec; discriminate. }
  apply Ascii.eqb_eq in Ec. subst c.
  destruct (span is_digit before) as [yes no] eqn:Espan.
  destruct (span_spec _ _ _ _ Espan) as (-> & Hdig & _).
  destruct yes as [|d0 ds]; [discriminate|].
  destruct no as [|b no]; [discriminate|].
  destruct (Ascii.eqb b "[") eqn:Eb.
  2:{ destruct b as [[] [] [] [] [] [] [] []]; try discriminate Eb; discriminate. }
  apply Ascii.eqb_eq in Eb. subst b.
  destruct no as [|p ps]; [discriminate|].
  destruct (forallb _ (p :: ps)) eqn:Hterm; [|discriminate].
  intros H.
  assert (Ha : a = string_of_list_ascii (rev (p :: ps))) by congruence.
  assert (Hd : d = string_of_list_ascii (rev (d0 :: ds))) by congruence.
  clear H. subst a d.
  rewrite !list_ascii_of_string_of_list_ascii, !forallb_rev.
  repeat split.
  - apply (f_equal (@rev _)) in Ekey. rewrite rev_involutive in Ekey.
    apply (f_equal string_of_list_ascii) in Ekey.
    rewrite string_of_list_ascii_of_string in Ekey. rewrite Ekey.
    change ("]"%char :: ((d0 :: ds) ++ "["%char :: p :: ps))%list
      with (["]"%char] ++ (d0 :: ds) ++ ["["%char] ++ (p :: ps))%list.
    rewrite !rev_app_distr, <- !app_assoc, !string_of_chars_app. reflexivity.
  - simpl. destruct (rev ps); discriminate.
  - simpl. destruct (rev ds); discriminate.
  - exact Hdig.
  - exact Hterm.
Qed.

Lemma split_dot_nonempty (s : string) : split_dot s <> [].
Proof.
  induction s as [|c s IH]; simpl; [discriminate|].
  destruct (Ascii.eqb c "."); [discriminate|]. now destruct (split_dot s).
Qed.

Lemma split_dot_concat (s : string) : String.concat "." (split_dot s) = s.
Proof.
  induction s as [|c s IH]; simpl; [reflexivity|].
  pose proof (split_dot_nonempty s) as Hne.
  destruct (Ascii.eqb c ".") eqn:Ec.
  - apply Ascii.eqb_eq in Ec. subst c.
    destruct (split_dot s) as [|seg segs]; [congruence|].
    simpl in *. now rewrite IH.
  - destruct (split_dot s) as [|seg segs]; [congruence|].
    simpl in *. destruct segs; simpl in *; now rewrite <- IH.
Qed.

(** The regular expression of [getNestedValue], [/^(.+)\[(\d+)\]$/], matches
    exactly the keys [ident[digits]] with a non-empty [ident] free of line
    terminators and at least one digit, and its groups are [ident] and
    [digits]. *)
Theorem match_array_key_spec (key a d : string) :
  match_array_key key = Some (a, d) <->
  (key = a ++ "[" ++ d ++ "]" /\ a <> "" /\ d <> ""
   /\ forallb is_digit (list_ascii_of_string d) = true
   /\ forallb (fun c => negb (is_line_terminator c)) (list_ascii_of_string a) = true).
Proof.
  split; [apply match_array_key_sound|].
  intros (-> & Ha & Hd & Hdig & Hterm). now apply match_array_key_complete.
Qed.

Example match_array_key_examples :
  match_array_key "rates[0]" = Some ("rates", "0")
  /\ match_array_key "a[1][22]" = Some ("a[1]", "22")
  /\ match_array_key "[1]" = None
  /\ match_array_key "a[]" = None
  /\ match_array_key "a[x]" = None
  /\ match_array_key "a[1]b" = None.
Proof. repeat split. Qed.

Example split_dot_examples :
  split_dot "data.rates[0].usd" = ["data"; "rates[0]"; "usd"]
  /\ split_dot "a..b" = ["a"; ""; "b"]
  /\ split_dot "a." = ["a"; ""].
Proof. repeat split. Qed.

Example parseFloat_examples :
  parseFloat (JStr "  12.5e1abc") = Returns (Finite 125)
  /\ parseFloat (JStr "-.5") = Returns (Finite (-1 # 2))
  /\ parseFloat (JStr "1.e2") = Returns (Finite 100)
  /\ parseFloat (JStr "0.000012") = Returns (Finite (3 # 250000))
  /\ parseFloat (JStr "1e") = Returns (Finite 1)
  /\ parseFloat (JStr ".") = Returns NaN
  /\ parseFloat (JStr "abc") = Returns NaN
  /\ parseFloat (JStr "-Infinity") = Returns (Infinity true)
  /\ parseFloat (JArr [JArr [num 5]; num 6]) = Returns (Finite 5)
  /\ parseFloat (JBool true) = Returns NaN
  /\ parseFloat (JObj [("price", num 1)]) = Returns NaN
  /\ parseFloat (JObj [("toString", num 1)]) = Throws
  /\ parseFloat (JArr [num 5; JObj [("toString", JNull)]]) = Throws.
Proof. repeat split. Qed.

(** An assignment to [__proto__] on an object created by [{}] adds no key;
    it does once the prototype is [null] or an object with a member of that
    name. *)
Example assign_examples :
  assign "__proto__" (num 1) ([], true) = ([], true)
  /\ assign "__proto__" (JObj [("a", num 1)]) ([], true) = ([], true)
  /\ assign "a" (num 2) (assign "__proto__" (JObj [("a", num 1)]) ([], true))
     = ([("a", num 2)], true)
  /\ assign "__proto__" (num 1) (assign "__proto__" JNull ([], true))
     = ([("__proto__", num 1)], false)
  /\ assign "__proto__" (num 1)
       (assign "__proto__" (JObj [("__proto__", JNull)]) ([], true))
     = ([("__proto__", num 1)], false)
  /\ assign "toString" (num 1) ([], true) = ([("toString", num 1)], true).
Proof. repeat split. Qed.

Example set_prop_order :
  set_prop "b" (num 1)
    (set_prop "2" (num 0)
       (set_prop "a" JNull (set_prop "10" JNull (set_prop "b" JNull []))))
  = [("2", num 0); ("10", JNull); ("b", num 1); ("a", JNull)].
Proof. reflexivity. Qed.

(** *** The cache duration *)

(** C2. The cache duration computed from the refresh interval [R] and the
    skip-cache flag: 0 when the flag is set; otherwise min(5, R/3) below 30,
    R/4 from 30 up to 120 (excluded), min(30, R/4) from 120 on.  R = 20 gives
    5, R = 60 gives 15 and R = 300 gives 30. *)
Theorem cacheDuration_policy (R : Q) :
  cacheDuration true R = 0%Q /\
  ((R < 30)%Q -> cacheDuration false R = Qmin 5 (R / 3)) /\
  ((30 <= R)%Q -> (R < 120)%Q -> cacheDuration false R = (R / 4)%Q) /\
  ((120 <= R)%Q -> cacheDuration false R = Qmin 30 (R / 4)) /\
  (cacheDuration false 20 == 5)%Q /\
  (cacheDuration false 60 == 15)%Q /\
  (cacheDuration false 300 == 30)%Q.
Proof.
  unfold cacheDuration. repeat split.
  - intros H. apply Qltb_true in H. now rewrite H.
  - intros H1 H2. apply Qltb_false in H1. apply Qltb_true in H2. now rewrite H1, H2.
  - intros H. assert (H' : (30 <= R)%Q) by (eapply Qle_trans; [|exact H]; discriminate).
    apply Qltb_false in H, H'. now rewrite H', H.
Qed.

Lemma cacheDuration_policy_witness :
  (10 < 30)%Q /\ cacheDuration false 10 = Qmin 5 (10 / 3)
  /\ (120 <= 600)%Q /\ cacheDuration false 600 = Qmin 30 (600 / 4).
Proof.
  assert (H1 : (10 < 30)%Q) by reflexivity.
  assert (H2 : (120 <= 600)%Q) by discriminate.
  split; [exact H1|]. split; [exact (proj1 (proj2 (cacheDuration_policy 10)) H1)|].
  split; [exact H2|].
  exact (proj1 (proj2 (proj2 (proj2 (cacheDuration_policy 600)))) H2).
Defined.

(** C8. An empty path is a pass-through: [getNestedValue V ""] is [V]; so is
    any falsy value in the position of the path. *)
Theorem getNestedValue_empty_path (builtin : kind -> string -> bool) (V : jsvalue) :
  getNestedValue builtin V "" = Returns V /\
  forall p : jsvalue, truthy p = false -> getNestedValue_any builtin V p = Returns V.
Proof.
  split; [reflexivity|].
  intros p Hp. unfold getNestedValue_any.
  destruct p; try (rewrite Hp; reflexivity).
  unfold getNestedValue. now rewrite Hp.
Qed.

Lemma getNestedValue_empty_path_witness :
  truthy JUndefined = false
  /\ getNestedValue_any Scenario.builtin (JObj [("a", num 1)]) JUndefined
     = Returns (JObj [("a", num 1)]).
Proof.
  split; [reflexivity|].
  exact (proj2 (getNestedValue_empty_path Scenario.builtin (JObj [("a", num 1)]))
           JUndefined eq_refl).
Defined.

(** C10. Falsy data gives no row at all, whatever the fields selected (in
    particular when the list of fields is not empty) and whatever the widget
    kind; so it is for [null], [undefined], [0], the empty string and
    [false]. *)
Theorem transformAPIData_falsy_data (builtin : kind -> string -> bool) (data : jsvalue)
  (fieldMappings : list FieldMapping.t) (widgetType : string) :
  truthy data = false ->
  transformAPIData builtin data fieldMappings widgetType = Returns [].
Proof.
  intros Hfalsy. unfold transformAPIData. now rewrite Hfalsy.
Qed.

Lemma transformAPIData_falsy_data_witness :
  Forall (fun data =>
            transformAPIData Scenario.builtin data [FieldMapping.mk "price" "Price"] "table"
            = Returns [])
    [JNull; JUndefined; num 0; JStr ""; JBool false; JNum NaN].
Proof.
  repeat (apply List.Forall_cons;
          [apply transformAPIData_falsy_data; reflexivity|]).
  apply List.Forall_nil.
Defined.

(** *** The response cache *)

Lemma clearExpiredCache_unfold (w : World) :
  clearExpiredCache w =
  (tt, mkWorld (fold_left (sweep_step (clock w)) (map_to_list (apiCache w)) (apiCache w))
         (clock w) (requests w)).
Proof. reflexivity. Qed.

Lemma sweep_fold_no_expired (now : Q) (l : list (string * CacheEntry.t)) :
  forall cache : gmap string CacheEntry.t,
    (forall url e, cache !! url = Some e ->
                   number_gt (Finite now) (CacheEntry.expiresAt e) = true ->
                   (url, e) ∈ l) ->
    forall url e, fold_left (sweep_step now) l cache !! url = Some e ->
                  number_gt (Finite now) (CacheEntry.expiresAt e) = false.
Proof.
  induction l as [|[url0 e0] l IH]; intros cache Hin url e Hlook; simpl in Hlook.
  - destruct (number_gt (Finite now) (CacheEntry.expiresAt e)) eqn:E; [|reflexivity].
    specialize (Hin _ _ Hlook E). inversion Hin.
  - eapply IH; [|exact Hlook]. intros url' e' Hl He.
    destruct (number_gt (Finite now) (CacheEntry.expiresAt e0)) eqn:E0.
    + destruct (decide (url0 = url')) as [->|Hne].
      * rewrite lookup_delete_eq in Hl. discriminate.
      * rewrite lookup_delete_ne in Hl by exact Hne.
        specialize (Hin _ _ Hl He). apply elem_of_cons in Hin as [Heq|Hin]; [|exact Hin].
        congruence.
    + specialize (Hin _ _ Hl He). apply elem_of_cons in Hin as [Heq|Hin]; [|exact Hin].
      congruence.
Qed.

Lemma sweep_fold_keeps (now : Q) (l : list (string * CacheEntry.t)) :
  forall (cache : gmap string CacheEntry.t) url e,
    (forall e0, (url, e0) ∈ l ->
                number_gt (Finite now) (CacheEntry.expiresAt e0) = false) ->
    cache !! url = Some e ->
    fold_left (sweep_step now) l cache !! url = Some e.
Proof.
  induction l as [|[url0 e0] l IH]; intros cache url e Hlive Hlook; simpl; [exact Hlook|].
  apply IH.
  - intros e1 H1. apply Hlive. apply elem_of_cons; now right.
  - destruct (number_gt (Finite now) (CacheEntry.expiresAt e0)) eqn:E0; [|exact Hlook].
    rewrite lookup_delete_ne; [exact Hlook|].
    intros ->. rewrite (Hlive e0) in E0; [discriminate|]. apply elem_of_cons; now left.
Qed.

Lemma sweep_fold_subset (now : Q) (l : list (string * CacheEntry.t)) :
  forall (cache : gmap string CacheEntry.t) url e,
    fold_left (sweep_step now) l cache !! url = Some e -> cache !! url = Some e.
Proof.
  induction l as [|[url0 e0] l IH]; intros cache url e Hlook; simpl in Hlook; [exact Hlook|].
  apply IH in Hlook.
  destruct (number_gt (Finite now) (CacheEntry.expiresAt e0)); [|exact Hlook].
  apply lookup_delete_Some in Hlook. tauto.
Qed.

(** What the sweep leaves under a URL: the entry that was there, unless the
    clock had passed its expiry. *)
Lemma sweep_lookup (w : World) (url : string) :
  apiCache (snd (clearExpiredCache w)) !! url
  = match apiCache w !! url with
    | Some e =>
        if number_gt (Finite (clock w)) (CacheEntry.expiresAt e) then None else Some e
    | None => None
    end.
Proof.
  rewrite clearExpiredCache_unfold. simpl.
  destruct (apiCache w !! url) as [e|] eqn:Hlook.
  - destruct (number_gt (Finite (clock w)) (CacheEntry.expiresAt e)) eqn:E.
    + destruct (fold_left (sweep_step (clock w)) (map_to_list (apiCache w)) (apiCache w)
                  !! url) as [e'|] eqn:Hafter; [|reflexivity].
      assert (Hlive : number_gt (Finite (clock w)) (CacheEntry.expiresAt e') = false).
      { eapply sweep_fold_no_expired; [|exact Hafter].
        intros url' e0 Hl _. now apply elem_of_map_to_list. }
      apply sweep_fold_subset in Hafter. congruence.
    + apply sweep_fold_keeps; [|exact Hlook].
      intros e0 Hin. apply elem_of_map_to_list in Hin. congruence.
  - destruct (fold_left (sweep_step (clock w)) (map_to_list (apiCache w)) (apiCache w)
                !! url) as [e'|] eqn:Hafter; [|reflexivity].
    apply sweep_fold_subset in Hafter. congruence.
Qed.

(** C9. Right after [clearExpiredCache], no entry whose expiry is earlier
    than the clock reading is left in the cache: a URL whose entry had
    expired has no entry any more, every other entry is there as it was, so
    that an entry found after the sweep has an expiry that is not earlier
    than the clock reading; the clock and the requests made are as before. *)
Theorem clearExpiredCache_invariant (w : World) (url : string) :
  let swept := snd (clearExpiredCache w) in
  (forall e, apiCache w !! url = Some e ->
             number_lt (CacheEntry.expiresAt e) (Finite (clock w)) = true ->
             apiCache swept !! url = None)
  /\ (forall e, apiCache w !! url = Some e ->
                number_lt (CacheEntry.expiresAt e) (Finite (clock w)) = false ->
                apiCache swept !! url = Some e)
  /\ (apiCache w !! url = None -> apiCache swept !! url = None)
  /\ (forall e, apiCache swept !! url = Some e ->
                number_lt (CacheEntry.expiresAt e) (Finite (clock w)) = false
                /\ forall x, CacheEntry.expiresAt e = Finite x -> ~ (x < clock w)%Q)
  /\ clock swept = clock w
  /\ requests swept = requests w.
Proof.
  intros swept. subst swept.
  pose proof (sweep_lookup w url) as Hsweep. unfold number_gt in Hsweep.
  split; [|split; [|split; [|split; [|split; reflexivity]]]].
  - intros e Hlook Hdead. now rewrite Hsweep, Hlook, Hdead.
  - intros e Hlook Hlive. now rewrite Hsweep, Hlook, Hlive.
  - intros Hlook. now rewrite Hsweep, Hlook.
  - intros e Hafter. rewrite Hsweep in Hafter.
    destruct (apiCache w !! url) as [e0|]; [|discriminate].
    destruct (number_lt (CacheEntry.expiresAt e0) (Finite (clock w))) eqn:E; [discriminate|].
    assert (e0 = e) by congruence. subst e0. split; [exact E|].
    intros x Hx Hlt. rewrite Hx in E. apply number_gt_Finite in Hlt.
    unfold number_gt in Hlt. congruence.
Qed.

(** The sweep removes nothing else: an entry whose expiry the clock has not
    passed stays. *)
Lemma clearExpiredCache_keeps_live (w : World) (url : string) (e : CacheEntry.t) :
  apiCache w !! url = Some e ->
  number_gt (Finite (clock w)) (CacheEntry.expiresAt e) = false ->
  apiCache (snd (clearExpiredCache w)) !! url = Some e.
Proof.
  intros Hlook Hlive. now rewrite sweep_lookup, Hlook, Hlive.
Qed.

Lemma clearExpiredCache_invariant_witness :
  apiCache Scenario.w_two !! "stale" = Some Scenario.stale
  /\ number_lt (CacheEntry.expiresAt Scenario.stale) (Finite (clock Scenario.w_two)) = true
  /\ apiCache (snd (clearExpiredCache Scenario.w_two)) !! "stale" = None.
Proof.
  assert (H : apiCache Scenario.w_two !! "stale" = Some Scenario.stale)
    by (vm_compute; reflexivity).
  split; [exact H|]. split; [reflexivity|].
  exact (proj1 (clearExpiredCache_invariant Scenario.w_two "stale") Scenario.stale H
           eq_refl).
Defined.

Lemma clearExpiredCache_keeps_live_witness :
  apiCache Scenario.w_two !! "live" = Some Scenario.live
  /\ apiCache (snd (clearExpiredCache Scenario.w_two)) !! "live" = Some Scenario.live.
Proof.
  assert (H : apiCache Scenario.w_two !! "live" = Some Scenario.live)
    by (vm_compute; reflexivity).
  split; [exact H|].
  apply (clearExpiredCache_keeps_live Scenario.w_two "live" Scenario.live H).
  reflexivity.
Defined.

Example clearExpiredCache_drops_stale :
  apiCache (snd (clearExpiredCache Scenario.w_two)) !! "stale" = None.
Proof. vm_compute. reflexivity. Qed.

Lemma setCachedData_unfold (url : string) (data : jsvalue) (duration : number) (w : World) :
  setCachedData url data duration w =
  (tt, mkWorld (<[url := CacheEntry.mk data (clock w)
                           (number_add (Finite (clock w)) duration)]> (apiCache w))
         (clock w) (requests w)).
Proof. reflexivity. Qed.

Lemma getCachedData_hit (url : string) (w : World) (e : CacheEntry.t) :
  apiCache w !! url = Some e ->
  number_gt (Finite (clock w)) (CacheEntry.expiresAt e) = false ->
  getCachedData url w = (CacheEntry.data e, w).
Proof.
  intros Hlook Hlive.
  unfold getCachedData, bind, apiCache_get, Date_now, ret. now rewrite Hlook, Hlive.
Qed.

Lemma getCachedData_expired (url : string) (w : World) (e : CacheEntry.t) :
  apiCache w !! url = Some e ->
  number_gt (Finite (clock w)) (CacheEntry.expiresAt e) = true ->
  getCachedData url w = (JNull, mkWorld (delete url (apiCache w)) (clock w) (requests w)).
Proof.
  intros Hlook Hdead.
  unfold getCachedData, bind, apiCache_get, Date_now, apiCache_delete, ret.
  now rewrite Hlook, Hdead.
Qed.

Lemma getCachedData_absent (url : string) (w : World) :
  apiCache w !! url = None -> getCachedData url w = (JNull, w).
Proof.
  intros Hlook. unfold getCachedData, bind, apiCache_get, ret. now rewrite Hlook.
Qed.

(** C3, amended.  [D] and [T] are in seconds.  After [set(u, V, D)] with
    [D > 0], a [get(u)] made at once returns [V], and so does one made up to
    and including [D] seconds later; one made more than [D] seconds later
    returns [null] and leaves no entry for [u]. *)
Theorem cache_set_then_get (w : World) (u : string) (V : jsvalue) (D T : Q) :
  (0 < D)%Q ->
  let stored := snd (setCachedData u V (Finite (D * 1000)) w) in
  fst (getCachedData u stored) = V /\
  ((0 <= T)%Q -> (T <= D)%Q ->
   getCachedData u (advance (T * 1000) stored) = (V, advance (T * 1000) stored)) /\
  ((D < T)%Q ->
   fst (getCachedData u (advance (T * 1000) stored)) = JNull /\
   apiCache (snd (getCachedData u (advance (T * 1000) stored))) !! u = None).
Proof.
  intros HD stored. subst stored. rewrite setCachedData_unfold. simpl.
  set (e := CacheEntry.mk V (clock w) (Finite (clock w + D * 1000))).
  repeat split.
  - erewrite getCachedData_hit with (e := e); [reflexivity|apply lookup_insert_eq|].
    apply number_gt_Finite_false. simpl. lra.
  - intros HT0 HT. apply getCachedData_hit with (e := e); [apply lookup_insert_eq|].
    apply number_gt_Finite_false. simpl. lra.
  - erewrite getCachedData_expired with (e := e); [reflexivity|apply lookup_insert_eq|].
    apply number_gt_Finite. simpl. lra.
  - erewrite getCachedData_expired with (e := e);
      [|apply lookup_insert_eq|apply number_gt_Finite; simpl; lra].
    simpl. apply lookup_delete_eq.
Qed.

Lemma cache_set_then_get_witness :
  (0 < 30)%Q /\
  let stored := snd (setCachedData "u" (num 7) (Finite (30 * 1000)) Scenario.w0) in
  fst (getCachedData "u" stored) = num 7 /\
  ((0 <= 12)%Q -> (12 <= 30)%Q ->
   getCachedData "u" (advance (12 * 1000) stored) = (num 7, advance (12 * 1000) stored)) /\
  ((30 < 12)%Q ->
   fst (getCachedData "u" (advance (12 * 1000) stored)) = JNull /\
   apiCache (snd (getCachedData "u" (advance (12 * 1000) stored))) !! "u" = None).
Proof.
  split; [reflexivity|].
  apply (cache_set_then_get Scenario.w0 "u" (num 7) 30 12). reflexivity.
Defined.

(** C3 as stated fails on the boundary: exactly [D] seconds after the
    [set] (here 30), the [get] still returns the value, not [null]. *)
Lemma cache_get_at_expiry_still_hits :
  fst (getCachedData "u"
         (advance (30 * 1000)
            (snd (setCachedData "u" (num 7) (Finite (30 * 1000)) Scenario.w0))))
  = num 7 /\
  num 7 <> JNull.
Proof. split; [vm_compute; reflexivity|discriminate]. Qed.

(** *** The fetch *)

(** C1, amended.  When the cache holds for the URL an entry that has not
    expired and whose data is truthy, [fetchFromAPI] with [useCache = true]
    returns [{success: true, data, error: null, cached: true}] with that data
    and leaves the world as it was: no request is made.  The expiry has not
    passed when [now > expiresAt] is false. *)
Theorem fetchFromAPI_cache_hit (Options : Type)
  (respond : string -> Options -> Error.t + Response.t) (latency : string -> Q)
  (w : World) (url : string) (options : Options) (cacheDuration : number)
  (e : CacheEntry.t) :
  apiCache w !! url = Some e ->
  number_gt (Finite (clock w)) (CacheEntry.expiresAt e) = false ->
  truthy (CacheEntry.data e) = true ->
  fetchFromAPI Options respond latency url options true cacheDuration w
  = (FetchResult.mk true (CacheEntry.data e) None (Some true), w).
Proof.
  intros Hlook Hlive Htruthy. unfold fetchFromAPI, bind.
  rewrite (getCachedData_hit url w e Hlook Hlive). now rewrite Htruthy.
Qed.

Lemma fetchFromAPI_cache_hit_witness :
  let w := snd (setCachedData "u" (num 7) (Finite (30 * 1000)) Scenario.w0) in
  let e := CacheEntry.mk (num 7) 1000 (Finite (1000 + 30 * 1000)) in
  apiCache w !! "u" = Some e /\
  fetchFromAPI unit (Scenario.always_ok (num 8)) Scenario.no_latency "u" tt true
    (Finite 30) w
  = (FetchResult.mk true (num 7) None (Some true), w).
Proof.
  intros w e.
  assert (H : apiCache w !! "u" = Some e) by apply lookup_insert_eq.
  split; [exact H|].
  apply (fetchFromAPI_cache_hit unit (Scenario.always_ok (num 8)) Scenario.no_latency
           w "u" tt (Finite 30) e H); reflexivity.
Defined.

(** C1 as stated fails for falsy cached data: with the value [0] stored by
    [setCachedData] and not expired, the call goes to the network and reports
    [cached: false]. *)
Lemma fetchFromAPI_falsy_cached_value_refetched :
  let w := snd (setCachedData "u" (num 0) (Finite (30 * 1000)) Scenario.w0) in
  let out := fetchFromAPI unit (Scenario.always_ok (num 0)) Scenario.no_latency
               "u" tt true (Finite 30) w in
  option_map CacheEntry.data (apiCache w !! "u") = Some (num 0) /\
  requests (snd out) = ["u"] /\
  FetchResult.cached (fst out) = Some false.
Proof. vm_compute. repeat split. Qed.

Lemma includes_skip_char (c : ascii) (rest : string) :
  c <> "C"%char -> includes "CORS" (String c rest) = includes "CORS" rest.
Proof.
  intros Hc. cbn [includes String.prefix].
  destruct (ascii_dec "C" c) as [E|_]; [congruence|reflexivity].
Qed.

Lemma includes_skip_prefix (pre t : string) :
  (forall c, In c (list_ascii_of_string pre) -> c <> "C"%char) ->
  includes "CORS" (pre ++ t) = includes "CORS" t.
Proof.
  induction pre as [|c pre IH]; intros Hpre; [reflexivity|].
  change (String c pre ++ t) with (String c (pre ++ t)).
  rewrite includes_skip_char by (apply Hpre; now left).
  apply IH. intros c' Hc'. apply Hpre. now right.
Qed.

Lemma string_of_uint_digits (d : Decimal.uint) :
  forall c, In c (list_ascii_of_string (NilEmpty.string_of_uint d)) -> is_digit c = true.
Proof.
  induction d; simpl; intros c Hc; try contradiction;
    (destruct Hc as [<-|Hc]; [reflexivity|now apply IHd]).
Qed.

Lemma show_N_digits (n : N) :
  forall c, In c (list_ascii_of_string (show_N n)) -> is_digit c = true.
Proof. apply string_of_uint_digits. Qed.

(** Whether the message of the error thrown for a bad status mentions CORS
    depends on the status text alone. *)
Lemma includes_CORS_http_message (status : N) (statusText : string) :
  includes "CORS" ("HTTP " ++ show_N status ++ ": " ++ statusText)
  = includes "CORS" statusText.
Proof.
  change ("HTTP " ++ show_N status ++ ": " ++ statusText)
    with (String "H" (String "T" (String "T" (String "P" (String " "
            (show_N status ++ String ":" (String " " statusText))))))).
  rewrite !includes_skip_char by discriminate.
  rewrite includes_skip_prefix.
  - now rewrite !includes_skip_char by discriminate.
  - intros c Hc Heq. apply show_N_digits in Hc. subst c. discriminate.
Qed.

Lemma getCachedData_requests (url : string) (w : World) :
  requests (snd (getCachedData url w)) = requests w.
Proof.
  unfold getCachedData, bind, apiCache_get, Date_now, apiCache_delete, ret.
  destruct (apiCache w !! url) as [e|]; [|reflexivity].
  now destruct (number_gt (Finite (clock w)) (CacheEntry.expiresAt e)).
Qed.

Section FetchProperties.
Variable Options : Type.
Variable respond : string -> Options -> Error.t + Response.t.
Variable latency : string -> Q.

(** A [try] block makes exactly one request; it ends with an error exactly
    when [thrown_by_try] says so, and then the cache is as it was. *)
Lemma try_fetch_thrown (target url : string) (options : Options) (useCache : bool)
  (cacheDuration : number) (w : World) (error : Error.t) :
  thrown_by_try (respond target options) = Some error ->
  try_fetch Options respond latency target url options useCache cacheDuration w
  = (inl error, mkWorld (apiCache w) (clock w + latency target)%Q ((requests w ++ [target])%list)).
Proof.
  unfold thrown_by_try, try_fetch, bind, fetch, ret.
  destruct (respond target options) as [e|response]; [congruence|].
  destruct (negb (Response.ok response)); [congruence|].
  destruct (Response.json response); [congruence|discriminate].
Qed.

Lemma try_fetch_returned (target url : string) (options : Options) (useCache : bool)
  (cacheDuration : number) (w : World) :
  thrown_by_try (respond target options) = None ->
  exists data w',
    try_fetch Options respond latency target url options useCache cacheDuration w
    = (inr (FetchResult.mk true data None (Some false)), w')
    /\ requests w' = (requests w ++ [target])%list.
Proof.
  unfold thrown_by_try, try_fetch, bind, fetch, ret.
  destruct (respond target options) as [e|response]; [discriminate|].
  destruct (negb (Response.ok response)); [discriminate|].
  destruct (Response.json response) as [e|data]; [discriminate|]. intros _.
  exists data. destruct useCache; eexists; split; reflexivity.
Qed.

Lemma fetch_uncached_requests (url : string) (options : Options) (useCache : bool)
  (cacheDuration : number) (w : World) :
  let out := fetch_uncached Options respond latency url options useCache cacheDuration w in
  requests (snd out) = (requests w ++ [url])%list
  \/ (requests (snd out) = (requests w ++ [url; (CORS_PROXY ++ url)%string])%list
      /\ exists error, thrown_by_try (respond url options) = Some error
                       /\ is_cors_or_network error = true).
Proof.
  unfold fetch_uncached, bind.
  destruct (thrown_by_try (respond url options)) as [error|] eqn:Hdirect.
  - rewrite (try_fetch_thrown _ _ _ _ _ _ _ Hdirect).
    destruct (is_cors_or_network error) eqn:Hclass; [|left; reflexivity].
    right. split; [|eauto].
    destruct (thrown_by_try (respond (CORS_PROXY ++ url) options)) as [perr|] eqn:Hproxy.
    + rewrite (try_fetch_thrown _ _ _ _ _ _ _ Hproxy). simpl.
      now rewrite <- app_assoc.
    + destruct (try_fetch_returned (CORS_PROXY ++ url) url options useCache cacheDuration
                  (mkWorld (apiCache w) (clock w + latency url)%Q ((requests w ++ [url])%list))
                  Hproxy) as (data & w' & -> & Hreq).
      simpl in *. now rewrite Hreq, <- app_assoc.
  - destruct (try_fetch_returned url url options useCache cacheDuration w Hdirect)
      as (data & w' & -> & Hreq).
    left. exact Hreq.
Qed.

Lemma http_error_not_classified (status : N) (statusText : string) :
  includes "CORS" statusText = false ->
  is_cors_or_network
    (Error.mk "Error" ("HTTP " ++ show_N status ++ ": " ++ statusText)) = false.
Proof.
  intros Hcors. unfold is_cors_or_network. simpl Error.message. simpl Error.name.
  now rewrite includes_CORS_http_message, Hcors.
Qed.

Lemma fetch_uncached_bad_status (url : string) (options : Options) (useCache : bool)
  (cacheDuration : number) (w : World) (response : Response.t) :
  respond url options = inr response ->
  Response.ok response = false ->
  includes "CORS" (Response.statusText response) = false ->
  fetch_uncached Options respond latency url options useCache cacheDuration w
  = (failure ("HTTP " ++ show_N (Response.status response) ++ ": "
              ++ Response.statusText response),
     mkWorld (apiCache w) (clock w + latency url)%Q ((requests w ++ [url])%list)).
Proof.
  intros Hresp Hok Hcors. unfold fetch_uncached, bind.
  rewrite try_fetch_thrown with
    (error := Error.mk "Error" ("HTTP " ++ show_N (Response.status response) ++ ": "
                                ++ Response.statusText response)).
  - now rewrite http_error_not_classified.
  - unfold thrown_by_try. now rewrite Hresp, Hok.
Qed.

Lemma fetch_uncached_proxy_bad_status (url : string) (options : Options) (useCache : bool)
  (cacheDuration : number) (w : World) (error : Error.t) (response : Response.t) :
  thrown_by_try (respond url options) = Some error ->
  is_cors_or_network error = true ->
  respond (CORS_PROXY ++ url) options = inr response ->
  Response.ok response = false ->
  let out := fetch_uncached Options respond latency url options useCache cacheDuration w in
  fst out = failure ("CORS Error: "
                     ++ ("HTTP " ++ show_N (Response.status response) ++ ": "
                         ++ Response.statusText response)
                     ++ ". Try enabling CORS in your API or use a proxy.")
  /\ requests (snd out) = (requests w ++ [url; (CORS_PROXY ++ url)%string])%list.
Proof.
  intros Hdirect Hclass Hresp Hok. unfold fetch_uncached, bind.
  rewrite (try_fetch_thrown _ _ _ _ _ _ _ Hdirect), Hclass.
  rewrite try_fetch_thrown with
    (error := Error.mk "Error" ("HTTP " ++ show_N (Response.status response) ++ ": "
                                ++ Response.statusText response)).
  - simpl. now rewrite <- app_assoc.
  - unfold thrown_by_try. now rewrite Hresp, Hok.
Qed.

(** C7, amended.  For a call that is not answered from the cache:
    - a direct response with a status outside 200-299 whose status text does
      not contain "CORS" makes the call fail with the message
      [HTTP <status>: <statusText>] and exactly one request, no retry;
    - the same status on the answer of the proxy makes it fail with that
      message inside the CORS error message, and no third request;
    and for every call, the requests made are none, the direct one, or the
    direct one followed by one through the proxy, the latter only when the
    direct attempt ended with an error whose message contains "CORS" or whose
    name is [TypeError]. *)
Theorem fetchFromAPI_retry_policy (w : World) (url : string) (options : Options)
  (useCache : bool) (cacheDuration : number) :
  let out := fetchFromAPI Options respond latency url options useCache cacheDuration w in
  let missed := negb useCache || negb (truthy (fst (getCachedData url w))) in
  (forall response,
      missed = true ->
      respond url options = inr response ->
      Response.ok response = false ->
      includes "CORS" (Response.statusText response) = false ->
      fst out = failure ("HTTP " ++ show_N (Response.status response) ++ ": "
                         ++ Response.statusText response)
      /\ requests (snd out) = (requests w ++ [url])%list) /\
  (forall error response,
      missed = true ->
      thrown_by_try (respond url options) = Some error ->
      is_cors_or_network error = true ->
      respond (CORS_PROXY ++ url) options = inr response ->
      Response.ok response = false ->
      fst out = failure ("CORS Error: "
                         ++ ("HTTP " ++ show_N (Response.status response) ++ ": "
                             ++ Response.statusText response)
                         ++ ". Try enabling CORS in your API or use a proxy.")
      /\ requests (snd out) = (requests w ++ [url; (CORS_PROXY ++ url)%string])%list) /\
  (requests (snd out) = requests w
   \/ requests (snd out) = (requests w ++ [url])%list
   \/ (requests (snd out) = (requests w ++ [url; (CORS_PROXY ++ url)%string])%list
       /\ exists error, thrown_by_try (respond url options) = Some error
                        /\ is_cors_or_network error = true)).
Proof.
  intros out missed. subst out missed. unfold fetchFromAPI, bind.
  destruct useCache; simpl negb; simpl orb.
  - pose proof (getCachedData_requests url w) as Hreq.
    destruct (getCachedData url w) as [cachedData w1]. simpl in Hreq. simpl fst.
    destruct (truthy cachedData); simpl negb.
    + split; [intros ? ?; discriminate|]. split; [intros ? ? ?; discriminate|].
      left. simpl. exact Hreq.
    + split; [|split].
      * intros response _ Hresp Hok Hcors.
        rewrite (fetch_uncached_bad_status _ _ _ _ _ _ Hresp Hok Hcors). simpl.
        now rewrite Hreq.
      * intros error response _ Hdirect Hclass Hresp Hok. rewrite <- Hreq.
        exact (fetch_uncached_proxy_bad_status _ _ _ _ _ _ _ Hdirect Hclass Hresp Hok).
      * right. rewrite <- Hreq. apply fetch_uncached_requests.
  - split; [|split].
    + intros response _ Hresp Hok Hcors.
      now rewrite (fetch_uncached_bad_status _ _ _ _ _ _ Hresp Hok Hcors).
    + intros error response _ Hdirect Hclass Hresp Hok.
      exact (fetch_uncached_proxy_bad_status _ _ _ _ _ _ _ Hdirect Hclass Hresp Hok).
    + right. apply fetch_uncached_requests.
Qed.

End FetchProperties.

Lemma fetchFromAPI_retry_policy_witness :
  let out := fetchFromAPI unit Scenario.not_found Scenario.no_latency
               "u" tt true (Finite 30) Scenario.w0 in
  fst out = failure "HTTP 404: Not Found" /\ requests (snd out) = ["u"].
Proof.
  exact (proj1 (fetchFromAPI_retry_policy unit Scenario.not_found Scenario.no_latency
                  Scenario.w0 "u" tt true (Finite 30))
           (Response.mk 404 "Not Found" (inr JNull)) eq_refl eq_refl eq_refl eq_refl).
Defined.

(** C7 as stated fails when the status text of a non-2xx response contains
    "CORS": the same catch block classifies the error thrown for the status,
    the request is repeated through the proxy, and the call succeeds. *)
Lemma fetchFromAPI_bad_status_retried :
  let out := fetchFromAPI unit Scenario.cors_status_text Scenario.no_latency
               "u" tt false (Finite 30) Scenario.w0 in
  option_map Response.ok
    (match Scenario.cors_status_text "u" tt with inr r => Some r | inl _ => None end)
  = Some false /\
  FetchResult.success (fst out) = true /\
  requests (snd out) = ["u"; "https://cors-anywhere.herokuapp.com/u"].
Proof. vm_compute. repeat split. Qed.

(** *** The path explorer *)

Lemma string_length_append (a b : string) :
  String.length (a ++ b) = (String.length a + String.length b)%nat.
Proof. induction a as [|c a IH]; simpl; [reflexivity|now rewrite IH]. Qed.

(** Every path [explore] emits is at least as long as the path it was
    called with. *)
Lemma explore_path_length (maxDepth : Z) (v : jsvalue) :
  forall (currentPath : string) (depth : Z) (d : PathInfo.t),
    In d (explore maxDepth v currentPath depth) ->
    (String.length currentPath <= String.length (PathInfo.path d))%nat.
Proof.
  induction v as [| | | | |items IH|props IH] using jsvalue_nested_ind;
    intros currentPath depth d Hin; simpl in Hin;
    destruct (depth >? maxDepth)%Z; try contradiction.
  - destruct items as [|first rest]; [contradiction|].
    destruct Hin as [<-|Hin]; [simpl; lia|].
    apply Forall_inv in IH. apply IH in Hin.
    rewrite string_length_append in Hin. lia.
  - apply in_flat_map in Hin as ([key value] & Hkv & Hin).
    rewrite List.Forall_forall in IH. specialize (IH _ Hkv). simpl in IH.
    assert (Hnew : (String.length currentPath
                    <= String.length (if truthy (JStr currentPath)
                                      then currentPath ++ "." ++ key else key))%nat).
    { destruct (truthy (JStr currentPath)) eqn:E.
      - rewrite string_length_append. lia.
      - simpl in E. apply negb_false_iff, String.eqb_eq in E. subst. simpl. lia. }
    destruct Hin as [<-|Hin]; [exact Hnew|].
    destruct (is_structured (type_tag value)); [|contradiction].
    apply IH in Hin. exact (Nat.le_trans _ _ _ Hnew Hin).
Qed.

Lemma explore_deeper_paths_differ (maxDepth : Z) (v : jsvalue) (currentPath : string)
  (depth : Z) :
  List.filter (fun d => String.eqb (PathInfo.path d) currentPath)
    (explore maxDepth v (currentPath ++ "[0]") depth) = [].
Proof.
  pose proof (explore_path_length maxDepth v (currentPath ++ "[0]") depth) as Hlen.
  induction (explore maxDepth v (currentPath ++ "[0]") depth) as [|d l IH];
    [reflexivity|].
  simpl. rewrite IH by (intros d' Hd'; apply Hlen; now right).
  destruct (String.eqb (PathInfo.path d) currentPath) eqn:Heq; [|reflexivity].
  exfalso. apply String.eqb_eq in Heq.
  specialize (Hlen d (or_introl eq_refl)).
  rewrite Heq, string_length_append in Hlen. simpl in Hlen. lia.
Qed.

(** C6, amended.  Exploring a non-empty array within the depth cap emits the
    synthetic descriptor of the array (value [Array(N)], type [array]) and
    then what exploring its element 0 emits, nothing else: the synthetic
    descriptor is the only one of these that carries the array's path, and
    the elements after the first matter through their number alone.  An
    empty array emits nothing, and neither does any value beyond the cap. *)
Theorem explore_array (maxDepth depth : Z) (first : jsvalue) (rest : list jsvalue)
  (currentPath : string) :
  let synthetic :=
    PathInfo.mk currentPath (JStr ("Array(" ++ show_nat (S (List.length rest)) ++ ")"))
      "array" (Some first) in
  ((depth <= maxDepth)%Z ->
   explore maxDepth (JArr (first :: rest)) currentPath depth
   = synthetic :: explore maxDepth first (currentPath ++ "[0]") (depth + 1)%Z
   /\ List.filter (fun d => String.eqb (PathInfo.path d) currentPath)
        (explore maxDepth (JArr (first :: rest)) currentPath depth) = [synthetic]
   /\ (forall rest', List.length rest' = List.length rest ->
        explore maxDepth (JArr (first :: rest')) currentPath depth
        = explore maxDepth (JArr (first :: rest)) currentPath depth))
  /\ explore maxDepth (JArr []) currentPath depth = []
  /\ ((maxDepth < depth)%Z ->
      explore maxDepth (JArr (first :: rest)) currentPath depth = []).
Proof.
  intros synthetic. split; [|split].
  - intros Hdepth.
    assert (Hcap : (depth >? maxDepth)%Z = false) by lia.
    assert (Heq : explore maxDepth (JArr (first :: rest)) currentPath depth
                  = synthetic
                    :: explore maxDepth first (currentPath ++ "[0]") (depth + 1)%Z).
    { simpl. now rewrite Hcap. }
    split; [exact Heq|]. split.
    + rewrite Heq. simpl. rewrite String.eqb_refl. f_equal.
      apply explore_deeper_paths_differ.
    + intros rest' Hlen. simpl. rewrite Hcap. now rewrite Hlen.
  - simpl. now destruct (depth >? maxDepth)%Z.
  - intros Hdeep. assert (Hcap : (depth >? maxDepth)%Z = true) by lia.
    simpl. now rewrite Hcap.
Qed.

Lemma explore_array_witness :
  (0 <= 5)%Z
  /\ List.filter (fun d => String.eqb (PathInfo.path d) "rates")
       (explore 5 (JArr [JObj [("usd", num 1)]; num 3]) "rates" 0)
     = [PathInfo.mk "rates" (JStr ("Array(" ++ show_nat 2 ++ ")")) "array"
          (Some (JObj [("usd", num 1)]))].
Proof.
  assert (H : (0 <= 5)%Z) by discriminate.
  split; [exact H|].
  exact (proj1 (proj2 (proj1 (explore_array 5 0 (JObj [("usd", num 1)]) [num 3] "rates")
                         H))).
Defined.

Example explore_array_example :
  map (fun d => (PathInfo.path d, PathInfo.value d, PathInfo.type d))
    (exploreJSONPaths (JObj [("rates", JArr [JObj [("usd", num 1)]; num 3])]) "" 5)
  = [("rates", JStr "{array}", "array");
     ("rates", JStr "Array(2)", "array");
     ("rates[0].usd", num 1, "number")].
Proof. reflexivity. Qed.

(** The example of the specification:
    [explore({a:1,b:{c:2}}, maxDepth=5)]. *)
Example explore_spec_example :
  map (fun d => (PathInfo.path d, PathInfo.value d, PathInfo.type d))
    (exploreJSONPaths (JObj [("a", num 1); ("b", JObj [("c", num 2)])]) "" 5)
  = [("a", num 1, "number"); ("b", JStr "{object}", "object"); ("b.c", num 2, "number")].
Proof. reflexivity. Qed.

(** C6 as stated fails for an empty array: exploration reaches the array
    under [tags] and emits no synthetic descriptor for it, only the
    descriptor of the key in the enclosing object. *)
Lemma explore_empty_array_no_synthetic :
  explore 5 (JArr []) "tags" 1 = [] /\
  exploreJSONPaths (JObj [("tags", JArr [])]) "" 5
  = [PathInfo.mk "tags" (JStr "{array}") "array" None].
Proof. split; reflexivity. Qed.

(** *** The data transformer *)

Lemma assoc_replace_prop (key k : string) (v : jsvalue) (props : list (string * jsvalue)) :
  has_key key props = true ->
  assoc k (replace_prop key v props) = if String.eqb key k then Some v else assoc k props.
Proof.
  unfold has_key. induction props as [|[k0 x] props IH]; simpl; [discriminate|].
  destruct (String.eqb k0 key) eqn:E0; simpl.
  - intros _. apply String.eqb_eq in E0. subst k0.
    now destruct (String.eqb key k).
  - intros H. specialize (IH H).
    destruct (String.eqb k0 k) eqn:E1; [|exact IH].
    apply String.eqb_eq in E1. subst k0.
    destruct (String.eqb key k) eqn:E2; [|reflexivity].
    apply String.eqb_eq in E2. subst k. rewrite String.eqb_refl in E0. discriminate.
Qed.

Lemma assoc_add_prop (key k : string) (v : jsvalue) (props : list (string * jsvalue)) :
  has_key key props = false ->
  assoc k (add_prop key v props) = if String.eqb key k then Some v else assoc k props.
Proof.
  unfold has_key. induction props as [|[k0 x] props IH]; simpl.
  - intros _. now destruct (String.eqb key k).
  - destruct (String.eqb k0 key) eqn:E0; [discriminate|]. intros H. specialize (IH H).
    destruct (enumerated_before key k0); simpl.
    + now destruct (String.eqb key k).
    + destruct (String.eqb k0 k) eqn:E1; [|exact IH].
      apply String.eqb_eq in E1. subst k0.
      destruct (String.eqb key k) eqn:E2; [|reflexivity].
      apply String.eqb_eq in E2. subst k. rewrite String.eqb_refl in E0. discriminate.
Qed.

(** Reading a property after an assignment. *)
Lemma assoc_set_prop (key k : string) (v : jsvalue) (props : list (string * jsvalue)) :
  assoc k (set_prop key v props) = if String.eqb key k then Some v else assoc k props.
Proof.
  unfold set_prop. destruct (has_key key props) eqn:E.
  - now apply assoc_replace_prop.
  - now apply assoc_add_prop.
Qed.


Section Rows.
Variable builtin : kind -> string -> bool.






End Rows.






(** The examples of the specification. *)
Example transformAPIData_spec_examples :
  transformAPIData Scenario.builtin (JArr [JObj [("x", num 1)]; JObj [("x", num 2)]])
    [FieldMapping.mk "x" "X"] "table"
  = Returns [JObj [("X", num 1)]; JObj [("X", num 2)]]
  /\ transformAPIData Scenario.builtin (JObj [("BTC", num 50000); ("ETH", num 3000)])
       [FieldMapping.mk "BTC" "BTC"; FieldMapping.mk "ETH" "ETH"] "chart"
     = Returns [JObj [("name", JStr "BTC"); ("value", num 50000)];
                JObj [("name", JStr "ETH"); ("value", num 3000)]].
Proof. split; reflexivity. Qed.

Example transformAPIData_chart_strings :
  transformAPIData Scenario.builtin (JObj [("BTC", JStr "0.25"); ("ETH", JStr "n/a")])
    [FieldMapping.mk "BTC" "BTC"; FieldMapping.mk "ETH" "ETH"; FieldMapping.mk "XRP" "XRP"]
    "chart"
  = Returns [JObj [("name", JStr "BTC"); ("value", JNum (Finite (1 # 4)))];
             JObj [("name", JStr "ETH"); ("value", num 0)];
             JObj [("name", JStr "XRP"); ("value", num 0)]].
Proof. reflexivity. Qed.

(** Strings that start with no literal although they start like one. *)
Example starts_literal_examples :
  map starts_literal ["-abc"; "."; "Inf"; "+"; "e5"; ""; " -.5x"; "Infinity"; ".5"; "1e"]
  = [false; false; false; false; false; false; true; true; true; true].
Proof. reflexivity. Qed.


(** *** The path accessor *)

Section Walk.
Variable builtin : kind -> string -> bool.

Lemma step_undefined (key : string) : step builtin JUndefined key = Returns JUndefined.
Proof. unfold step. now destruct (match_array_key key) as [[arrayKey index]|]. Qed.

(** Once a lookup has given [undefined], so do all that follow. *)
Lemma fold_step_undefined (segments : list string) :
  fold_left (fun reached key => and_then reached (fun current => step builtin current key))
    segments (Returns JUndefined)
  = Returns JUndefined.
Proof.
  induction segments as [|key rest IH]; simpl; [reflexivity|].
  now rewrite step_undefined.
Qed.

(** A walk over two runs of segments is the walk over the second from where
    the first arrives. *)
Lemma reduce_app (before after : list string) (obj : jsvalue) :
  reduce builtin (before ++ after)%list obj
  = and_then (reduce builtin before obj) (reduce builtin after).
Proof.
  unfold reduce. rewrite fold_left_app.
  generalize (fold_left
                (fun reached key => and_then reached (fun current => step builtin current key))
                before (Returns obj)).
  intros reached. destruct reached as [current| |]; [reflexivity| |].
  - induction after as [|key rest IH]; simpl; [reflexivity|exact IH].
  - induction after as [|key rest IH]; simpl; [reflexivity|exact IH].
Qed.

Lemma reduce_cons (key : string) (after : list string) (obj : jsvalue) :
  reduce builtin (key :: after) obj = and_then (step builtin obj key) (reduce builtin after).
Proof. exact (reduce_app [key] after obj). Qed.

Lemma reduce_undefined (segments : list string) :
  reduce builtin segments JUndefined = Returns JUndefined.
Proof. apply fold_step_undefined. Qed.

End Walk.






Section Members.
Variable builtin : kind -> string -> bool.


Lemma read_prop_own (v found : jsvalue) (key : string) :
  own_prop v key = Some found -> read_prop builtin v key = Returns found.
Proof.
  unfold read_prop. intros Hown. rewrite Hown.
  destruct v; try reflexivity; discriminate.
Qed.


End Members.




(** A lookup that reaches a member of a built-in prototype: what the call
    gives is the runtime's to say. *)
Example getNestedValue_builtin_member :
  getNestedValue Scenario.builtin (JObj [("a", num 1)]) "a.constructor.name" = Builtin
  /\ getNestedValue Scenario.builtin (JObj [("a", num 1)]) "toString" = Builtin
  /\ getNestedValue Scenario.builtin (JObj [("toString", num 1)]) "toString"
     = Returns (num 1).
Proof. repeat split. Qed.

(** *** Further properties of the service *)



Example transformAPIData_single_row_example :
  transformAPIData Scenario.builtin (JObj [("price", num 3); ("name", JStr "BTC")])
    [FieldMapping.mk "price" "Price"; FieldMapping.mk "name" "Name"] "card"
  = Returns [JObj [("Price", num 3); ("Name", JStr "BTC")]].
Proof. reflexivity. Qed.

Lemma getCachedData_clock (url : string) (w : World) :
  clock (snd (getCachedData url w)) = clock w.
Proof.
  unfold getCachedData, bind, apiCache_get, Date_now, apiCache_delete, ret.
  destruct (apiCache w !! url) as [e|]; [|reflexivity].
  now destruct (number_gt (Finite (clock w)) (CacheEntry.expiresAt e)).
Qed.

(** Step 6 of the orchestrator: a direct fetch that succeeds with the cache
    in use returns the body with [cached: false], after one request, and
    stores it under the URL for [cacheDuration] seconds from the moment the
    response arrived. *)
Theorem fetchFromAPI_success_stored (Options : Type)
  (respond : string -> Options -> Error.t + Response.t) (latency : string -> Q)
  (w : World) (url : string) (options : Options) (seconds : Q)
  (response : Response.t) (body : jsvalue) :
  truthy (fst (getCachedData url w)) = false ->
  respond url options = inr response ->
  Response.ok response = true ->
  Response.json response = inr body ->
  let out := fetchFromAPI Options respond latency url options true (Finite seconds) w in
  let arrival := (clock w + latency url)%Q in
  fst out = FetchResult.mk true body None (Some false)
  /\ requests (snd out) = (requests w ++ [url])%list
  /\ apiCache (snd out) !! url
     = Some (CacheEntry.mk body arrival (Finite (arrival + seconds * 1000))).
Proof.
  intros Hmiss Hresp Hok Hbody out arrival. subst out arrival.
  unfold fetchFromAPI, bind.
  pose proof (getCachedData_requests url w) as Hreq.
  pose proof (getCachedData_clock url w) as Hclock.
  destruct (getCachedData url w) as [cachedData w1]. simpl in *.
  rewrite Hmiss. unfold fetch_uncached, try_fetch, bind, fetch, ret.
  rewrite Hresp, Hok, Hbody. cbn [negb]. cbv beta iota.
  rewrite setCachedData_unfold. simpl. rewrite Hreq, Hclock.
  repeat split. apply lookup_insert_eq.
Qed.

Lemma fetchFromAPI_success_stored_witness :
  let out := fetchFromAPI unit (Scenario.always_ok (num 8)) Scenario.no_latency
               "u" tt true (Finite 30) Scenario.w0 in
  fst out = FetchResult.mk true (num 8) None (Some false)
  /\ requests (snd out) = ["u"]
  /\ apiCache (snd out) !! "u"
     = Some (CacheEntry.mk (num 8) (1000 + 0)%Q (Finite (1000 + 0 + 30 * 1000)%Q)).
Proof.
  exact (fetchFromAPI_success_stored unit (Scenario.always_ok (num 8)) Scenario.no_latency
           Scenario.w0 "u" tt 30 (Response.mk 200 "OK" (inr (num 8))) (num 8)
           eq_refl eq_refl eq_refl eq_refl).
Defined.

(** The shape of a result: a success carries no error; a failure carries
    [null] data, an error message and no [cached] flag. *)
Theorem fetchFromAPI_result_shape (Options : Type)
  (respond : string -> Options -> Error.t + Response.t) (latency : string -> Q)
  (w : World) (url : string) (options : Options) (useCache : bool)
  (cacheDuration : number) :
  let result :=
    fst (fetchFromAPI Options respond latency url options useCache cacheDuration w) in
  (FetchResult.success result = true /\ FetchResult.error result = None)
  \/ (FetchResult.success result = false /\ FetchResult.data result = JNull
      /\ FetchResult.cached result = None
      /\ exists message, FetchResult.error result = Some message).
Proof.
  assert (Hun : forall w',
             let result := fst (fetch_uncached Options respond latency url options
                                  useCache cacheDuration w') in
             (FetchResult.success result = true /\ FetchResult.error result = None)
             \/ (FetchResult.success result = false /\ FetchResult.data result = JNull
                 /\ FetchResult.cached result = None
                 /\ exists message, FetchResult.error result = Some message)).
  { intros w'. unfold fetch_uncached, bind.
    destruct (thrown_by_try (respond url options)) as [error|] eqn:Hdirect.
    - rewrite (try_fetch_thrown _ _ _ _ _ _ _ _ _ _ Hdirect).
      destruct (is_cors_or_network error).
      + destruct (thrown_by_try (respond (CORS_PROXY ++ url) options)) as [perr|] eqn:Hproxy.
        * rewrite (try_fetch_thrown _ _ _ _ _ _ _ _ _ _ Hproxy). right. simpl. eauto.
        * destruct (try_fetch_returned Options respond latency (CORS_PROXY ++ url) url
                      options useCache cacheDuration
                      (mkWorld (apiCache w') (clock w' + latency url)%Q
                         (requests w' ++ [url])%list) Hproxy) as (data & w2 & -> & _).
          left. simpl. auto.
      + right. simpl. eauto.
    - destruct (try_fetch_returned Options respond latency url url options useCache
                  cacheDuration w' Hdirect) as (data & w2 & -> & _).
      left. simpl. auto. }
  unfold fetchFromAPI, bind. destruct useCache; [|apply Hun].
  destruct (getCachedData url w) as [cachedData w1].
  destruct (truthy cachedData); [left; simpl; auto|apply Hun].
Qed.

End Properties.


(** ** Further properties of the code around the claims *)
Module Coverage.
Import PathEngine Service WidgetContainer Notions MoreNotions Properties.

(** *** The cache-duration policy *)

Lemma Qmin_le_l (a b : Q) : (Qmin a b <= a)%Q.
Proof. apply Q.le_min_l. Qed.

Lemma Qmin_le_r (a b : Q) : (Qmin a b <= b)%Q.
Proof. apply Q.le_min_r. Qed.

Lemma Qmin_glb (a b c : Q) : (c <= a)%Q -> (c <= b)%Q -> (c <= Qmin a b)%Q.
Proof. intros. now apply Q.min_glb. Qed.

Lemma cacheDuration_cases (R : Q) :
  ((R < 30)%Q /\ cacheDuration false R = Qmin 5 (R / 3))
  \/ ((30 <= R)%Q /\ (R < 120)%Q /\ cacheDuration false R = (R / 4)%Q)
  \/ ((120 <= R)%Q /\ cacheDuration false R = Qmin 30 (R / 4)).
Proof.
  unfold cacheDuration.
  destruct (Qltb R 30) eqn:E1.
  - left. split; [now apply Qltb_true|reflexivity].
  - apply Qltb_false in E1. destruct (Qltb R 120) eqn:E2.
    + right. left. apply Qltb_true in E2. auto.
    + right. right. apply Qltb_false in E2. auto.
Qed.

Lemma Qdiv3_le (a b : Q) : (a <= b)%Q -> (a / 3 <= b / 3)%Q.
Proof. intros H. unfold Qdiv. apply Qmult_le_compat_r; [exact H|discriminate]. Qed.

Lemma Qdiv4_le (a b : Q) : (a <= b)%Q -> (a / 4 <= b / 4)%Q.
Proof. intros H. unfold Qdiv. apply Qmult_le_compat_r; [exact H|discriminate]. Qed.

(** On a rational interval the policy read on numbers is the policy read on
    rationals; on NaN it gives NaN, unless the cache is skipped. *)
Lemma cacheDuration_of_Finite (skipCache : bool) (R : Q) :
  cacheDuration_of skipCache (Finite R) = Finite (cacheDuration skipCache R).
Proof.
  unfold cacheDuration_of, cacheDuration. destruct skipCache; [reflexivity|].
  change (number_lt (Finite R) (Finite 30)) with (Qltb R 30).
  change (number_lt (Finite R) (Finite 120)) with (Qltb R 120).
  destruct (Qltb R 30); [reflexivity|]. now destruct (Qltb R 120).
Qed.

Example cacheDuration_of_NaN :
  cacheDuration_of false NaN = NaN /\ cacheDuration_of true NaN = Finite 0.
Proof. split; reflexivity. Qed.

(** The duration the policy gives is never negative for a refresh interval
    that is not, never above 30 seconds, never above a third of the interval,
    and it does not shrink when the interval grows.  It is the duration that
    [fetchData] passes on for a widget with that interval; for an interval
    that is NaN, [fetchData] passes NaN, or 0 when the cache is skipped. *)
Theorem cacheDuration_bounds (R R' : Q) (skipCache : bool) :
  (0 <= R)%Q ->
  (R <= R')%Q ->
  (0 <= cacheDuration skipCache R)%Q
  /\ (cacheDuration skipCache R <= 30)%Q
  /\ (cacheDuration skipCache R <= R / 3)%Q
  /\ (cacheDuration skipCache R <= cacheDuration skipCache R')%Q
  /\ cacheDuration_of skipCache (Finite R) = Finite (cacheDuration skipCache R)
  /\ cacheDuration_of skipCache NaN = (if skipCache then Finite 0 else NaN).
Proof.
  intros HR HRR'.
  assert (Hsame : cacheDuration_of skipCache (Finite R) = Finite (cacheDuration skipCache R)
                  /\ cacheDuration_of skipCache NaN = (if skipCache then Finite 0 else NaN)).
  { split; [apply cacheDuration_of_Finite|now destruct skipCache]. }
  revert Hsame. generalize (cacheDuration_of skipCache (Finite R)).
  generalize (cacheDuration_of skipCache NaN). intros d d' [Hd' Hd].
  cut ((0 <= cacheDuration skipCache R)%Q
       /\ (cacheDuration skipCache R <= 30)%Q
       /\ (cacheDuration skipCache R <= R / 3)%Q
       /\ (cacheDuration skipCache R <= cacheDuration skipCache R')%Q); [tauto|].
  clear d d' Hd Hd'. destruct skipCache.
  { simpl. repeat split; try discriminate; try apply Qle_refl.
    unfold Qdiv. apply Qmult_le_0_compat; [exact HR|discriminate]. }
  assert (H3 : (R / 3 == R * (1 # 3))%Q) by reflexivity.
  assert (H4 : (R / 4 == R * (1 # 4))%Q) by reflexivity.
  assert (H3' : (R' / 3 == R' * (1 # 3))%Q) by reflexivity.
  assert (H4' : (R' / 4 == R' * (1 # 4))%Q) by reflexivity.
  destruct (cacheDuration_cases R) as [[Hlt ->]|[(Hge & Hlt & ->)|[Hge ->]]];
    (split; [|split; [|split]]).
  - apply Qmin_glb; lra.
  - eapply Qle_trans; [apply Qmin_le_l|]. lra.
  - apply Qmin_le_r.
  - destruct (cacheDuration_cases R') as [[Hlt' ->]|[(Hge' & Hlt' & ->)|[Hge' ->]]].
    + apply Qmin_glb; [apply Qmin_le_l|].
      eapply Qle_trans; [apply Qmin_le_r|]. now apply Qdiv3_le.
    + eapply Qle_trans; [apply Qmin_le_l|]. lra.
    + apply Qmin_glb; [eapply Qle_trans; [apply Qmin_le_l|]; lra|].
      eapply Qle_trans; [apply Qmin_le_l|]. lra.
  - lra.
  - lra.
  - lra.
  - destruct (cacheDuration_cases R') as [[Hlt' ->]|[(Hge' & Hlt' & ->)|[Hge' ->]]].
    + exfalso. lra.
    + now apply Qdiv4_le.
    + apply Qmin_glb; lra.
  - apply Qmin_glb; lra.
  - apply Qmin_le_l.
  - eapply Qle_trans; [apply Qmin_le_r|]. lra.
  - destruct (cacheDuration_cases R') as [[Hlt' ->]|[(Hge' & Hlt' & ->)|[Hge' ->]]].
    + exfalso. lra.
    + exfalso. lra.
    + apply Qmin_glb; [apply Qmin_le_l|].
      eapply Qle_trans; [apply Qmin_le_r|]. now apply Qdiv4_le.
Qed.

Lemma cacheDuration_bounds_witness :
  (0 <= 45)%Q /\ (45 <= 600)%Q
  /\ (cacheDuration false 45 <= cacheDuration false 600)%Q.
Proof.
  assert (H1 : (0 <= 45)%Q) by discriminate.
  assert (H2 : (45 <= 600)%Q) by discriminate.
  split; [exact H1|]. split; [exact H2|].
  exact (proj1 (proj2 (proj2 (proj2 (cacheDuration_bounds 45 600 false H1 H2))))).
Defined.

(** *** The cache: invalidation and statistics *)

Section CacheProperties.
Variable Options : Type.
Variable respond : string -> Options -> Error.t + Response.t.
Variable latency : string -> Q.

Lemma fetch_uncached_goes_out (url : string) (options : Options) (useCache : bool)
  (cacheDuration : number) (w : World) :
  requests (snd (fetch_uncached Options respond latency url options useCache cacheDuration w))
  <> requests w.
Proof.
  destruct (fetch_uncached_requests Options respond latency url options useCache
              cacheDuration w)
    as [H|[H _]]; rewrite H; intros Heq;
    apply (f_equal (@List.length _)) in Heq; rewrite length_app in Heq; simpl in Heq; lia.
Qed.

Lemma fetchFromAPI_miss (url : string) (options : Options) (cacheDuration : number)
  (w : World) :
  apiCache w !! url = None ->
  fetchFromAPI Options respond latency url options true cacheDuration w
  = fetch_uncached Options respond latency url options true cacheDuration w.
Proof.
  intros Hnone. unfold fetchFromAPI, bind. now rewrite (getCachedData_absent url w Hnone).
Qed.

(** [clearCacheForUrl] reports whether the URL had an entry (expired or
    not) and removes it: the next lookup of the URL misses, the next cached
    fetch of it goes to the network, a second call reports [false], and the
    entries of other URLs stay as they are. *)
Theorem clearCacheForUrl_invalidates (url : string) (options : Options)
  (cacheDuration : number) (w : World) :
  let cleared := snd (clearCacheForUrl url w) in
  (fst (clearCacheForUrl url w) = true <-> exists e, apiCache w !! url = Some e)
  /\ getCachedData url cleared = (JNull, cleared)
  /\ requests
       (snd (fetchFromAPI Options respond latency url options true cacheDuration cleared))
     <> requests cleared
  /\ fst (clearCacheForUrl url cleared) = false
  /\ (forall other, other <> url -> apiCache cleared !! other = apiCache w !! other).
Proof.
  intros cleared. subst cleared. unfold clearCacheForUrl. cbn [fst snd apiCache].
  assert (Hgone : delete url (apiCache w) !! url = None) by apply lookup_delete_eq.
  split; [|split; [|split; [|split]]].
  - destruct (apiCache w !! url) as [e|]; split; intros H; eauto; try discriminate.
    destruct H as [e H]. discriminate.
  - now apply getCachedData_absent.
  - rewrite fetchFromAPI_miss by exact Hgone. apply fetch_uncached_goes_out.
  - now rewrite Hgone.
  - intros other Hne. now apply lookup_delete_ne.
Qed.

(** [clearAllCache] returns the number of entries it found and leaves none:
    afterwards every lookup misses, every cached fetch goes to the network
    and a second call returns 0. *)
Theorem clearAllCache_empties (url : string) (options : Options)
  (cacheDuration : number) (w : World) :
  let cleared := snd (clearAllCache w) in
  fst (clearAllCache w) = List.length (map_to_list (apiCache w))
  /\ getCachedData url cleared = (JNull, cleared)
  /\ requests
       (snd (fetchFromAPI Options respond latency url options true cacheDuration cleared))
     <> requests cleared
  /\ fst (clearAllCache cleared) = 0%nat
  /\ CacheStats.totalEntries (fst (getCacheStats cleared)) = 0%nat.
Proof.
  intros cleared. subst cleared. unfold clearAllCache. cbn [fst snd apiCache].
  assert (Hgone : (∅ : gmap string CacheEntry.t) !! url = None) by apply lookup_empty.
  split; [|split; [|split; [|split]]].
  - symmetry. apply length_map_to_list.
  - now apply getCachedData_absent.
  - rewrite fetchFromAPI_miss by exact Hgone. apply fetch_uncached_goes_out.
  - apply map_size_empty.
  - unfold getCacheStats. simpl. now rewrite map_to_list_empty.
Qed.

End CacheProperties.


(** Every entry is active, expired, or has an expiry that is NaN, and only
    one of these. *)
Lemma expiry_partition_length (now : Q) (l : list (string * CacheEntry.t)) :
  List.length l
  = (List.length
       (List.filter (fun entry => number_le (Finite now) (CacheEntry.expiresAt (snd entry))) l)
     + List.length
         (List.filter (fun entry => number_gt (Finite now) (CacheEntry.expiresAt (snd entry)))
            l)
     + List.length
         (List.filter (fun entry => is_NaN (CacheEntry.expiresAt (snd entry))) l))%nat.
Proof.
  induction l as [|x l IH]; [reflexivity|]. cbn [List.filter].
  destruct (expiry_cases now (CacheEntry.expiresAt (snd x)))
    as [(-> & -> & ->)|[(-> & -> & ->)|(-> & -> & ->)]]; cbn [List.length]; lia.
Qed.



Example getCacheStats_NaN_expiry :
  let w := snd (setCachedData "u" (num 1) (number_scale NaN 1000) Scenario.w0) in
  fst (getCacheStats w)
  = CacheStats.mk 1 0 0 [UrlStat.mk "u" 0 NaN]
  /\ apiCache (snd (clearExpiredCache w)) = apiCache w
  /\ fst (getCachedData "u" (advance 1000000 w)) = num 1.
Proof. vm_compute. repeat split. Qed.

Lemma NoDup_List_filter {A} (f : A -> bool) (l : list A) :
  NoDup l -> NoDup (List.filter f l).
Proof.
  induction 1 as [|x l Hx Hnd IH]; simpl; [constructor|].
  destruct (f x); [|exact IH]. constructor; [|exact IH].
  rewrite list_elem_of_In, filter_In. rewrite list_elem_of_In in Hx. tauto.
Qed.

Lemma sweep_entry (w : World) (url : string) (e : CacheEntry.t) :
  apiCache (snd (clearExpiredCache w)) !! url = Some e
  <-> apiCache w !! url = Some e
      /\ number_gt (Finite (clock w)) (CacheEntry.expiresAt e) = false.
Proof.
  rewrite sweep_lookup. destruct (apiCache w !! url) as [e0|].
  - destruct (number_gt (Finite (clock w)) (CacheEntry.expiresAt e0)) eqn:E.
    + split; [discriminate|]. intros [H1 H2]. congruence.
    + split; [intros H; split; congruence|]. now intros [H _].
  - split; [discriminate|]. now intros [H _].
Qed.

(** What a filter of the entries counts is, after the sweep, what it counted
    among the entries the clock had not passed. *)
Lemma sweep_filter_length (w : World) (f : string * CacheEntry.t -> bool) :
  List.length (List.filter f (map_to_list (apiCache (snd (clearExpiredCache w)))))
  = List.length
      (List.filter
         (fun entry =>
            f entry && negb (number_gt (Finite (clock w)) (CacheEntry.expiresAt (snd entry))))
         (map_to_list (apiCache w))).
Proof.
  apply Permutation_length. apply NoDup_Permutation.
  - apply NoDup_List_filter, NoDup_map_to_list.
  - apply NoDup_List_filter, NoDup_map_to_list.
  - intros [url e].
    rewrite !list_elem_of_In, !filter_In, <- !list_elem_of_In, !elem_of_map_to_list.
    rewrite sweep_entry. cbn [snd]. rewrite andb_true_iff, negb_true_iff. tauto.
Qed.

Lemma List_filter_ext_in {A} (f g : A -> bool) (l : list A) :
  (forall x, In x l -> f x = g x) -> List.filter f l = List.filter g l.
Proof.
  induction l as [|x l IH]; simpl; intros H; [reflexivity|].
  rewrite (H x (or_introl eq_refl)), IH; [reflexivity|].
  intros y Hy. apply H. now right.
Qed.

Lemma List_filter_all {A} (f : A -> bool) (l : list A) :
  (forall x, In x l -> f x = true) -> List.filter f l = l.
Proof.
  induction l as [|x l IH]; simpl; intros H; [reflexivity|].
  rewrite (H x (or_introl eq_refl)). f_equal. apply IH. intros y Hy. apply H. now right.
Qed.

Lemma List_filter_none {A} (f : A -> bool) (l : list A) :
  (forall x, In x l -> f x = false) -> List.filter f l = [].
Proof.
  induction l as [|x l IH]; simpl; intros H; [reflexivity|].
  rewrite (H x (or_introl eq_refl)). apply IH. intros y Hy. apply H. now right.
Qed.

(** The sweep seen through the statistics: right after [clearExpiredCache]
    the statistics report no expired entry and as many active entries as
    before; the entries left are these and the entries whose expiry is NaN,
    which the sweep keeps and which are counted as neither. *)
Theorem getCacheStats_after_sweep (w : World) :
  let before := fst (getCacheStats w) in
  let after := fst (getCacheStats (snd (clearExpiredCache w))) in
  let unordered :=
    List.length
      (List.filter (fun entry => is_NaN (CacheEntry.expiresAt (snd entry)))
         (map_to_list (apiCache w))) in
  CacheStats.expiredEntries after = 0%nat
  /\ CacheStats.activeEntries after = CacheStats.activeEntries before
  /\ CacheStats.totalEntries after = (CacheStats.activeEntries before + unordered)%nat
  /\ CacheStats.totalEntries after
     = (CacheStats.totalEntries before - CacheStats.expiredEntries before)%nat.
Proof.
  intros before after unordered. subst before after unordered.
  pose proof (expiry_partition_length (clock w) (map_to_list (apiCache w))) as Hparts.
  unfold getCacheStats.
  cbn [fst CacheStats.totalEntries CacheStats.activeEntries CacheStats.expiredEntries].
  change (clock (snd (clearExpiredCache w))) with (clock w).
  assert (Hexpired :
            List.length
              (List.filter
                 (fun entry => number_gt (Finite (clock w)) (CacheEntry.expiresAt (snd entry)))
                 (map_to_list (apiCache (snd (clearExpiredCache w))))) = 0%nat).
  { rewrite sweep_filter_length, List_filter_none; [reflexivity|].
    intros entry _. now destruct (number_gt _ _). }
  assert (Hactive :
            List.length
              (List.filter
                 (fun entry => number_le (Finite (clock w)) (CacheEntry.expiresAt (snd entry)))
                 (map_to_list (apiCache (snd (clearExpiredCache w)))))
            = List.length
                (List.filter
                   (fun entry =>
                      number_le (Finite (clock w)) (CacheEntry.expiresAt (snd entry)))
                   (map_to_list (apiCache w)))).
  { rewrite sweep_filter_length. f_equal. apply List_filter_ext_in. intros entry _.
    destruct (expiry_cases (clock w) (CacheEntry.expiresAt (snd entry)))
      as [(-> & -> & _)|[(-> & -> & _)|(-> & -> & _)]]; reflexivity. }
  assert (Htotal :
            List.length (map_to_list (apiCache (snd (clearExpiredCache w))))
            = List.length
                (List.filter
                   (fun entry =>
                      negb (number_gt (Finite (clock w)) (CacheEntry.expiresAt (snd entry))))
                   (map_to_list (apiCache w)))).
  { rewrite <- (List_filter_all (fun _ => true)
                  (map_to_list (apiCache (snd (clearExpiredCache w)))))
      by reflexivity.
    now rewrite sweep_filter_length. }
  assert (Hkept :
            List.length
              (List.filter
                 (fun entry =>
                    negb (number_gt (Finite (clock w)) (CacheEntry.expiresAt (snd entry))))
                 (map_to_list (apiCache w)))
            = (List.length
                 (List.filter
                    (fun entry =>
                       number_le (Finite (clock w)) (CacheEntry.expiresAt (snd entry)))
                    (map_to_list (apiCache w)))
               + List.length
                   (List.filter (fun entry => is_NaN (CacheEntry.expiresAt (snd entry)))
                      (map_to_list (apiCache w))))%nat).
  { clear. induction (map_to_list (apiCache w)) as [|x l IH]; [reflexivity|].
    cbn [List.filter].
    destruct (expiry_cases (clock w) (CacheEntry.expiresAt (snd x)))
      as [(-> & -> & ->)|[(-> & -> & ->)|(-> & -> & ->)]]; cbn [negb List.length]; lia. }
  rewrite Hexpired, Hactive, Htotal, Hkept. repeat split. lia.
Qed.

(** *** The fetch: what the cache is for *)

Section FetchMore.
Variable Options : Type.
Variable respond : string -> Options -> Error.t + Response.t.
Variable latency : string -> Q.

Lemma fetchFromAPI_fresh_world (w : World) (url : string) (options : Options)
  (seconds : Q) (response : Response.t) (body : jsvalue) :
  truthy (fst (getCachedData url w)) = false ->
  respond url options = inr response ->
  Response.ok response = true ->
  Response.json response = inr body ->
  let arrival := (clock w + latency url)%Q in
  fetchFromAPI Options respond latency url options true (Finite seconds) w
  = (FetchResult.mk true body None (Some false),
     mkWorld (<[url := CacheEntry.mk body arrival (Finite (arrival + seconds * 1000))]>
                (apiCache (snd (getCachedData url w))))
       arrival (requests w ++ [url])%list).
Proof.
  intros Hmiss Hresp Hok Hbody arrival. subst arrival.
  unfold fetchFromAPI, bind.
  pose proof (getCachedData_requests url w) as Hreq.
  pose proof (getCachedData_clock url w) as Hclock.
  destruct (getCachedData url w) as [cachedData w1]. cbn [fst snd] in *.
  rewrite Hmiss. unfold fetch_uncached, try_fetch, bind, fetch, ret.
  rewrite Hresp, Hok, Hbody. cbn [negb]. cbv beta iota.
  rewrite setCachedData_unfold. cbn [apiCache clock requests].
  now rewrite Hreq, Hclock.
Qed.

(** Bursts collapse onto one request: after a cached fetch that went to the
    network and succeeded with a truthy body, a second cached fetch of the
    same URL made no later than [seconds] seconds after the response arrived
    returns that body with [cached: true] and changes nothing: no request is
    made, whatever duration the second caller asks for. *)
Theorem fetchFromAPI_burst_collapses (w : World) (url : string) (options : Options)
  (seconds elapsed : Q) (cacheDuration' : number) (response : Response.t)
  (body : jsvalue) :
  truthy (fst (getCachedData url w)) = false ->
  respond url options = inr response ->
  Response.ok response = true ->
  Response.json response = inr body ->
  truthy body = true ->
  (0 <= elapsed)%Q ->
  (elapsed <= seconds)%Q ->
  let later :=
    advance (elapsed * 1000)
      (snd (fetchFromAPI Options respond latency url options true (Finite seconds) w)) in
  fetchFromAPI Options respond latency url options true cacheDuration' later
  = (FetchResult.mk true body None (Some true), later).
Proof.
  intros Hmiss Hresp Hok Hbody Htruthy H0 Hle later. subst later.
  rewrite (fetchFromAPI_fresh_world w url options seconds response body Hmiss Hresp Hok Hbody).
  cbn [snd].
  set (arrival := (clock w + latency url)%Q).
  set (e := CacheEntry.mk body arrival (Finite (arrival + seconds * 1000))).
  unfold fetchFromAPI, bind.
  erewrite getCachedData_hit with (e := e).
  - cbn [CacheEntry.data e]. now rewrite Htruthy.
  - apply lookup_insert_eq.
  - subst e. cbn [advance clock CacheEntry.expiresAt].
    apply number_gt_Finite_false. lra.
Qed.

Lemma fetch_uncached_no_cache (url : string) (options : Options)
  (cacheDuration : number) (w : World) :
  apiCache (snd (fetch_uncached Options respond latency url options false cacheDuration w))
  = apiCache w.
Proof.
  unfold fetch_uncached, bind.
  destruct (thrown_by_try (respond url options)) as [error|] eqn:Hdirect.
  - rewrite (try_fetch_thrown _ _ _ _ _ _ _ _ _ _ Hdirect).
    destruct (is_cors_or_network error); [|reflexivity].
    unfold try_fetch, bind, fetch, ret.
    destruct (respond (CORS_PROXY ++ url) options) as [e|r]; [reflexivity|].
    destruct (negb (Response.ok r)); [reflexivity|].
    destruct (Response.json r); reflexivity.
  - unfold try_fetch, bind, fetch, ret. unfold thrown_by_try in Hdirect.
    destruct (respond url options) as [e|r]; [discriminate|].
    destruct (negb (Response.ok r)); [discriminate|].
    destruct (Response.json r); [discriminate|reflexivity].
Qed.

Lemma fetch_uncached_shape (url : string) (options : Options) (useCache : bool)
  (cacheDuration : number) (w : World) :
  let result :=
    fst (fetch_uncached Options respond latency url options useCache cacheDuration w) in
  (FetchResult.success result = true /\ FetchResult.error result = None)
  \/ (FetchResult.success result = false /\ FetchResult.data result = JNull
      /\ exists message, FetchResult.error result = Some message).
Proof.
  unfold fetch_uncached, bind.
  destruct (thrown_by_try (respond url options)) as [error|] eqn:Hdirect.
  - rewrite (try_fetch_thrown _ _ _ _ _ _ _ _ _ _ Hdirect).
    destruct (is_cors_or_network error).
    + destruct (thrown_by_try (respond (CORS_PROXY ++ url) options)) as [perr|] eqn:Hproxy.
      * rewrite (try_fetch_thrown _ _ _ _ _ _ _ _ _ _ Hproxy). right. simpl. eauto.
      * destruct (try_fetch_returned Options respond latency (CORS_PROXY ++ url) url
                    options useCache cacheDuration
                    (mkWorld (apiCache w) (clock w + latency url)%Q
                       (requests w ++ [url])%list) Hproxy) as (data & w2 & -> & _).
        left. simpl. auto.
    + right. simpl. eauto.
  - destruct (try_fetch_returned Options respond latency url url options useCache
                cacheDuration w Hdirect) as (data & w2 & -> & _).
    left. simpl. auto.
Qed.

(** [testAPIEndpoint] never uses the cache: whatever the cache holds and
    whatever the network answers, it makes the direct request (and at most
    the one through the proxy after it) and leaves the cache as it was.  On
    success it carries the body and the paths of the body explored from the
    empty prefix to depth 5; on failure it carries an error message and no
    paths.  When the direct request is answered with a status in 200-299 and
    a body that parses, the result is that body with its paths. *)
Theorem testAPIEndpoint_fresh (url : string) (options : Options) (w : World) :
  let out := testAPIEndpoint Options respond latency url options w in
  apiCache (snd out) = apiCache w
  /\ (requests (snd out) = (requests w ++ [url])%list
      \/ requests (snd out) = (requests w ++ [url; (CORS_PROXY ++ url)%string])%list)
  /\ ((TestResult.success (fst out) = true
       /\ TestResult.paths (fst out)
          = Some (exploreJSONPaths (TestResult.data (fst out)) "" 5)
       /\ TestResult.error (fst out) = None)
      \/ (TestResult.success (fst out) = false
          /\ TestResult.paths (fst out) = None
          /\ TestResult.data (fst out) = JNull
          /\ exists message, TestResult.error (fst out) = Some message))
  /\ (forall response body,
        respond url options = inr response ->
        Response.ok response = true ->
        Response.json response = inr body ->
        fst out = TestResult.mk true body (Some (exploreJSONPaths body "" 5)) None).
Proof.
  intros out. subst out.
  assert (Hbody : forall response body,
             respond url options = inr response ->
             Response.ok response = true ->
             Response.json response = inr body ->
             fst (testAPIEndpoint Options respond latency url options w)
             = TestResult.mk true body (Some (exploreJSONPaths body "" 5)) None).
  { intros response body Hresp Hok Hjson.
    unfold testAPIEndpoint, fetchFromAPI, fetch_uncached, try_fetch, bind, fetch, ret.
    now rewrite Hresp, Hok, Hjson. }
  revert Hbody. unfold testAPIEndpoint, bind.
  change (fetchFromAPI Options respond latency url options false (Finite 30) w)
    with (fetch_uncached Options respond latency url options false (Finite 30) w).
  pose proof (fetch_uncached_no_cache url options (Finite 30) w) as Hcache.
  pose proof (fetch_uncached_requests Options respond latency url options false
                (Finite 30) w) as Hreq.
  pose proof (fetch_uncached_shape url options false (Finite 30) w) as Hshape.
  cbv zeta in Hshape, Hreq.
  destruct (fetch_uncached Options respond latency url options false (Finite 30) w)
    as [result w1].
  cbn [fst snd] in *.
  destruct Hshape as [[Hs He]|(Hs & Hd & msg & He)]; rewrite Hs; cbn [ret fst snd];
    intros Hbody.
  - split; [exact Hcache|]. split; [tauto|]. split; [|exact Hbody]. left. auto.
  - split; [exact Hcache|]. split; [tauto|]. split; [|exact Hbody]. right.
    cbn [TestResult.success TestResult.paths TestResult.data TestResult.error]. eauto.
Qed.

End FetchMore.

(** *** The widget store *)

Import DashboardStore.

Lemma assoc_distinct_head (key : string) (v : jsvalue) (rest : list (string * jsvalue)) :
  distinct (map fst ((key, v) :: rest)) = true -> assoc key rest = None.
Proof.
  simpl. intros H. apply andb_true_iff in H as [H _]. apply negb_true_iff in H.
  induction rest as [|[k x] rest IH]; simpl in *; [reflexivity|].
  apply orb_false_iff in H as [Hk H]. rewrite String.eqb_sym, Hk. now apply IH.
Qed.

Lemma distinct_tail (kv : string * jsvalue) (rest : list (string * jsvalue)) :
  distinct (map fst (kv :: rest)) = true -> distinct (map fst rest) = true.
Proof. simpl. intros H. now apply andb_true_iff in H as [_ H]. Qed.

(** Reading a property of an object literal after a spread. *)
Lemma assoc_spread (key : string) (source : widget) :
  distinct (map fst source) = true ->
  forall target : widget,
    assoc key (spread target source)
    = match assoc key source with
      | Some v => Some v
      | None => assoc key target
      end.
Proof.
  unfold spread. induction source as [|[k0 v0] rest IH]; intros Hd target;
    [reflexivity|].
  cbn [fold_left fst snd]. rewrite (IH (distinct_tail _ _ Hd)). cbn [assoc].
  rewrite assoc_set_prop.
  destruct (String.eqb k0 key) eqn:E; [|reflexivity].
  apply String.eqb_eq in E. subst k0. now rewrite (assoc_distinct_head _ _ _ Hd).
Qed.

Lemma has_id_assoc (widgetId : string) (w : widget) :
  has_id widgetId w
  = match assoc "id" w with
    | Some (JStr s) => String.eqb s widgetId
    | _ => false
    end.
Proof. reflexivity. Qed.

Lemma has_id_same_id (widgetId : string) (w w' : widget) :
  assoc "id" w' = assoc "id" w -> has_id widgetId w' = has_id widgetId w.
Proof. intros H. now rewrite !has_id_assoc, H. Qed.

Lemma map_unchanged {A} (f : A -> A) (l : list A) :
  (forall x, In x l -> f x = x) -> map f l = l.
Proof.
  induction l as [|x l IH]; simpl; intros H; [reflexivity|].
  rewrite (H x (or_introl eq_refl)). f_equal. apply IH. intros y Hy. apply H. now right.
Qed.

Lemma removeWidget_none_left (widgetId : string) (widgets : list widget) (w : widget) :
  In w (removeWidget widgetId widgets) -> has_id widgetId w = false.
Proof.
  unfold removeWidget. intros H. apply filter_In in H as [_ H].
  now apply negb_true_iff in H.
Qed.

(** Removal is final: after [removeWidget], no widget carries the id, so a
    result that arrives late changes nothing ([updateWidgetData],
    [setWidgetLoading] and [updateWidget] for that id leave the list as it
    is), and the widgets with any other id are still there, in the same
    order. *)
Theorem removeWidget_final (widgetId : string) (widgets : list widget) :
  let left := removeWidget widgetId widgets in
  (forall w, In w left -> has_id widgetId w = false)
  /\ (forall data error iso, updateWidgetData widgetId data error iso left = left)
  /\ (forall loading, setWidgetLoading widgetId loading left = left)
  /\ (forall updates, updateWidget widgetId updates left = left)
  /\ (forall w, In w widgets -> has_id widgetId w = false -> In w left)
  /\ (forall other, other <> widgetId ->
        List.filter (has_id other) left = List.filter (has_id other) widgets).
Proof.
  intros left. subst left.
  split; [apply removeWidget_none_left|].
  split; [|split; [|split; [|split]]].
  - intros data error iso. apply map_unchanged. intros w Hw.
    now rewrite (removeWidget_none_left _ _ _ Hw).
  - intros loading. apply map_unchanged. intros w Hw.
    now rewrite (removeWidget_none_left _ _ _ Hw).
  - intros updates. apply map_unchanged. intros w Hw.
    now rewrite (removeWidget_none_left _ _ _ Hw).
  - intros w Hw Hid. apply filter_In. split; [exact Hw|]. now rewrite Hid.
  - intros other Hne. unfold removeWidget.
    induction widgets as [|w ws IH]; [reflexivity|]. cbn [List.filter].
    destruct (has_id widgetId w) eqn:E; cbn [negb List.filter]; [|now rewrite IH].
    rewrite IH. rewrite has_id_assoc in *.
    destruct (assoc "id" w) as [[]|]; try reflexivity; try discriminate.
    apply String.eqb_eq in E. subst.
    apply String.eqb_neq in Hne. rewrite String.eqb_sym. now rewrite Hne.
Qed.








Lemma assoc_copy (key : string) (w : widget) :
  distinct (map fst w) = true -> assoc key (spread [] w) = assoc key w.
Proof. intros Hd. rewrite (assoc_spread key w Hd). now destruct (assoc key w). Qed.

(** What [updateWidgetData] writes into one widget. *)
Lemma updated_widget (w : widget) (data error : jsvalue) (iso : string) :
  distinct (map fst w) = true ->
  let w' := set_prop "lastFetched" (JStr iso) (set_prop "loading" (JBool false)
              (set_prop "error" error (set_prop "data" data (spread [] w)))) in
  assoc "data" w' = Some data
  /\ assoc "error" w' = Some error
  /\ assoc "loading" w' = Some (JBool false)
  /\ assoc "lastFetched" w' = Some (JStr iso)
  /\ (forall key, ~ In key ["data"; "error"; "loading"; "lastFetched"] ->
        assoc key w' = assoc key w).
Proof.
  intros Hd w'. subst w'. rewrite !assoc_set_prop. cbn [String.eqb Ascii.eqb Bool.eqb].
  repeat split. intros key Hkey. rewrite !assoc_set_prop, (assoc_copy key w Hd).
  destruct (String.eqb "lastFetched" key) eqn:E1;
    [apply String.eqb_eq in E1; subst; exfalso; apply Hkey; simpl; tauto|].
  destruct (String.eqb "loading" key) eqn:E2;
    [apply String.eqb_eq in E2; subst; exfalso; apply Hkey; simpl; tauto|].
  destruct (String.eqb "error" key) eqn:E3;
    [apply String.eqb_eq in E3; subst; exfalso; apply Hkey; simpl; tauto|].
  destruct (String.eqb "data" key) eqn:E4;
    [apply String.eqb_eq in E4; subst; exfalso; apply Hkey; simpl; tauto|].
  reflexivity.
Qed.

(** [updateWidgetData] keeps the number, the order and the ids of the widgets;
    a widget with another id is left as it is; a widget with the id has its
    data and error set to the arguments, loading set to false and lastFetched
    to the time of the update, and every other property kept. *)
Theorem updateWidgetData_effect (widgetId : string) (data error : jsvalue)
    (iso : string) (widgets : list widget) :
  Forall (fun w => distinct (map fst w) = true) widgets ->
  Forall2 (fun w w' =>
      (forall other, has_id other w' = has_id other w)
      /\ (has_id widgetId w = false -> w' = w)
      /\ (has_id widgetId w = true ->
            assoc "data" w' = Some data
            /\ assoc "error" w' = Some error
            /\ assoc "loading" w' = Some (JBool false)
            /\ assoc "lastFetched" w' = Some (JStr iso)
            /\ (forall key, ~ In key ["data"; "error"; "loading"; "lastFetched"] ->
                  assoc key w' = assoc key w)))
    widgets (updateWidgetData widgetId data error iso widgets).
Proof.
  unfold updateWidgetData. induction 1 as [|w ws Hd _ IH]; cbn [map]; constructor;
    [|exact IH].
  destruct (has_id widgetId w) eqn:E.
  - pose proof (updated_widget w data error iso Hd) as Hw. cbv zeta in Hw.
    split; [|split; [discriminate|intros _; exact Hw]].
    intros other. apply has_id_same_id.
    destruct Hw as (_ & _ & _ & _ & Hw). apply Hw. simpl.
    intros [H|[H|[H|[H|[]]]]]; discriminate.
  - split; [reflexivity|]. split; [reflexivity|discriminate].
Qed.

Lemma updateWidgetData_effect_witness :
  Forall (fun w => distinct (map fst w) = true)
    [[("id", JStr "7"); ("name", JStr "BTC"); ("loading", JBool true)]]
  /\ Forall2 (fun w w' =>
      (forall other, has_id other w' = has_id other w)
      /\ (has_id "7" w = false -> w' = w)
      /\ (has_id "7" w = true ->
            assoc "data" w' = Some (num 1)
            /\ assoc "error" w' = Some JNull
            /\ assoc "loading" w' = Some (JBool false)
            /\ assoc "lastFetched" w' = Some (JStr "t")
            /\ (forall key, ~ In key ["data"; "error"; "loading"; "lastFetched"] ->
                  assoc key w' = assoc key w)))
    [[("id", JStr "7"); ("name", JStr "BTC"); ("loading", JBool true)]]
    (updateWidgetData "7" (num 1) JNull "t"
       [[("id", JStr "7"); ("name", JStr "BTC"); ("loading", JBool true)]]).
Proof.
  assert (H : Forall (fun w => distinct (map fst w) = true)
    [[("id", JStr "7"); ("name", JStr "BTC"); ("loading", JBool true)]])
    by (apply List.Forall_cons; [reflexivity|apply List.Forall_nil]).
  split; [exact H|].
  exact (updateWidgetData_effect "7" (num 1) JNull "t" _ H).
Defined.

(** [updateWidget] merges the updates into the widget with the id: a key of
    the updates takes the new value, every other key keeps its value; widgets
    with another id are left as they are, and the list keeps its length and
    order.  (The settings dialog calls it with name and refreshInterval.) *)
Theorem updateWidget_merges (widgetId : string) (updates : widget)
    (widgets : list widget) :
  distinct (map fst updates) = true ->
  Forall (fun w => distinct (map fst w) = true) widgets ->
  Forall2 (fun w w' =>
      (has_id widgetId w = false -> w' = w)
      /\ (has_id widgetId w = true ->
            forall key,
              assoc key w'
              = match assoc key updates with
                | Some v => Some v
                | None => assoc key w
                end))
    widgets (updateWidget widgetId updates widgets).
Proof.
  intros Hu. unfold updateWidget. induction 1 as [|w ws Hd _ IH]; cbn [map];
    constructor; [|exact IH].
  destruct (has_id widgetId w) eqn:E.
  - split; [discriminate|]. intros _ key.
    rewrite (assoc_spread key updates Hu), (assoc_copy key w Hd). reflexivity.
  - split; [reflexivity|discriminate].
Qed.

Lemma updateWidget_merges_witness :
  distinct (map fst [("name", JStr "ETH"); ("refreshInterval", num 30)]) = true
  /\ Forall (fun w => distinct (map fst w) = true)
       [[("id", JStr "7"); ("name", JStr "BTC")]]
  /\ Forall2 (fun w w' =>
      (has_id "7" w = false -> w' = w)
      /\ (has_id "7" w = true ->
            forall key,
              assoc key w'
              = match assoc key [("name", JStr "ETH"); ("refreshInterval", num 30)] with
                | Some v => Some v
                | None => assoc key w
                end))
    [[("id", JStr "7"); ("name", JStr "BTC")]]
    (updateWidget "7" [("name", JStr "ETH"); ("refreshInterval", num 30)]
       [[("id", JStr "7"); ("name", JStr "BTC")]]).
Proof.
  assert (H : Forall (fun w => distinct (map fst w) = true)
    [[("id", JStr "7"); ("name", JStr "BTC")]])
    by (apply List.Forall_cons; [reflexivity|apply List.Forall_nil]).
  split; [reflexivity|]. split; [exact H|].
  exact (updateWidget_merges "7" [("name", JStr "ETH"); ("refreshInterval", num 30)]
           _ eq_refl H).
Defined.

(** [addWidget] appends one widget and leaves the others as they are.  The new
    widget starts with data, error and lastFetched null, loading false and
    createdAt the time of the call, whatever the configuration says for these
    keys; every other key is the configuration's; its id is the
    configuration's id when it has one, else the clock reading in decimal.  In
    that second case, and when no widget has this id yet, removing the id
    again gives back the list as it was. *)
Theorem addWidget_fresh (now : N) (iso : string) (config : widget)
    (widgets : list widget) :
  distinct (map fst config) = true ->
  exists newWidget,
    addWidget now iso config widgets = (widgets ++ [newWidget])%list
    /\ assoc "data" newWidget = Some JNull
    /\ assoc "loading" newWidget = Some (JBool false)
    /\ assoc "error" newWidget = Some JNull
    /\ assoc "lastFetched" newWidget = Some JNull
    /\ assoc "createdAt" newWidget = Some (JStr iso)
    /\ assoc "id" newWidget
       = Some (match assoc "id" config with
               | Some id => id
               | None => JStr (show_N now)
               end)
    /\ (forall key,
          ~ In key ["id"; "data"; "loading"; "error"; "lastFetched"; "createdAt"] ->
          assoc key newWidget = assoc key config)
    /\ (assoc "id" config = None ->
        (forall w, In w widgets -> has_id (show_N now) w = false) ->
        removeWidget (show_N now) (addWidget now iso config widgets) = widgets).
Proof.
  intros Hd. unfold addWidget. eexists. split; [reflexivity|].
  rewrite !assoc_set_prop. cbn [String.eqb Ascii.eqb Bool.eqb].
  assert (Hid : assoc "id"
      (set_prop "createdAt" (JStr iso) (set_prop "lastFetched" JNull
        (set_prop "error" JNull (set_prop "loading" (JBool false)
          (set_prop "data" JNull (spread [("id", JStr (show_N now))] config))))))
      = Some (match assoc "id" config with
              | Some id => id
              | None => JStr (show_N now)
              end)).
  { rewrite !assoc_set_prop. cbn [String.eqb Ascii.eqb Bool.eqb].
    rewrite (assoc_spread "id" config Hd). now destruct (assoc "id" config). }
  repeat split.
  - rewrite !assoc_set_prop in Hid. cbn [String.eqb Ascii.eqb Bool.eqb] in Hid.
    exact Hid.
  - intros key Hkey. rewrite !assoc_set_prop, (assoc_spread key config Hd).
    destruct (String.eqb "createdAt" key) eqn:E1;
      [apply String.eqb_eq in E1; subst; exfalso; apply Hkey; simpl; tauto|].
    destruct (String.eqb "lastFetched" key) eqn:E2;
      [apply String.eqb_eq in E2; subst; exfalso; apply Hkey; simpl; tauto|].
    destruct (String.eqb "error" key) eqn:E3;
      [apply String.eqb_eq in E3; subst; exfalso; apply Hkey; simpl; tauto|].
    destruct (String.eqb "loading" key) eqn:E4;
      [apply String.eqb_eq in E4; subst; exfalso; apply Hkey; simpl; tauto|].
    destruct (String.eqb "data" key) eqn:E5;
      [apply String.eqb_eq in E5; subst; exfalso; apply Hkey; simpl; tauto|].
    destruct (assoc key config); [reflexivity|]. cbn [assoc].
    destruct (String.eqb "id" key) eqn:E6; [|reflexivity].
    apply String.eqb_eq in E6; subst; exfalso; apply Hkey; simpl; tauto.
  - intros Hnone Hfresh. unfold removeWidget. rewrite List.filter_app.
    rewrite List_filter_all
      by (intros w Hw; now rewrite (Hfresh w Hw)).
    cbn [List.filter]. rewrite has_id_assoc, Hid, Hnone, String.eqb_refl.
    cbn [negb]. apply app_nil_r.
Qed.

Lemma addWidget_fresh_witness :
  distinct (map fst [("name", JStr "BTC"); ("loading", JBool true)]) = true
  /\ exists newWidget,
    addWidget 1700 "t" [("name", JStr "BTC"); ("loading", JBool true)] []
    = ([] ++ [newWidget])%list
    /\ assoc "data" newWidget = Some JNull
    /\ assoc "loading" newWidget = Some (JBool false)
    /\ assoc "error" newWidget = Some JNull
    /\ assoc "lastFetched" newWidget = Some JNull
    /\ assoc "createdAt" newWidget = Some (JStr "t")
    /\ assoc "id" newWidget
       = Some (match assoc "id" [("name", JStr "BTC"); ("loading", JBool true)] with
               | Some id => id
               | None => JStr (show_N 1700)
               end)
    /\ (forall key,
          ~ In key ["id"; "data"; "loading"; "error"; "lastFetched"; "createdAt"] ->
          assoc key newWidget
          = assoc key [("name", JStr "BTC"); ("loading", JBool true)])
    /\ (assoc "id" [("name", JStr "BTC"); ("loading", JBool true)] = None ->
        (forall w, In w [] -> has_id (show_N 1700) w = false) ->
        removeWidget (show_N 1700)
          (addWidget 1700 "t" [("name", JStr "BTC"); ("loading", JBool true)] []) = []).
Proof.
  split; [reflexivity|].
  exact (addWidget_fresh 1700 "t" [("name", JStr "BTC"); ("loading", JBool true)] []
           eq_refl).
Defined.

(** *** Selecting fields in the add-widget dialog *)

Import FieldSelection.

Lemma find_path_none (path : string) (fields : list SelectedField.t) :
  List.find (fun f => String.eqb (SelectedField.path f) path) fields = None
  <-> ~ In path (map SelectedField.path fields).
Proof.
  induction fields as [|f fs IH]; simpl; [tauto|].
  destruct (String.eqb (SelectedField.path f) path) eqn:E.
  - apply String.eqb_eq in E. split; [discriminate|]. intros H. exfalso. apply H. now left.
  - apply String.eqb_neq in E. rewrite IH. tauto.
Qed.

Lemma find_append {A} (f : A -> bool) (l l' : list A) :
  List.find f l = None -> List.find f (l ++ l') = List.find f l'.
Proof.
  induction l as [|x l IH]; simpl; [reflexivity|].
  destruct (f x); [discriminate|exact IH].
Qed.

Lemma paths_after_filter (path : string) (fields : list SelectedField.t) (p : string) :
  In p (map SelectedField.path
          (List.filter (fun f => negb (String.eqb (SelectedField.path f) path)) fields))
  <-> In p (map SelectedField.path fields) /\ p <> path.
Proof.
  rewrite !in_map_iff. split.
  - intros (f & <- & Hf). apply filter_In in Hf as [Hf Hne].
    apply negb_true_iff, String.eqb_neq in Hne. split; [now exists f|exact Hne].
  - intros [(f & <- & Hf) Hne]. exists f. split; [reflexivity|].
    apply filter_In. split; [exact Hf|]. now apply negb_true_iff, String.eqb_neq.
Qed.

Lemma NoDup_paths_filter (g : SelectedField.t -> bool) (fields : list SelectedField.t) :
  List.NoDup (map SelectedField.path fields) ->
  List.NoDup (map SelectedField.path (List.filter g fields)).
Proof.
  induction fields as [|f fs IH]; simpl; intros H; [constructor|].
  inversion H as [|? ? Hnot Hrest]; subst.
  destruct (g f); [|now apply IH]. simpl. constructor; [|now apply IH].
  intros Hin. apply Hnot. apply in_map_iff in Hin as (f' & Hp & Hf').
  apply filter_In in Hf' as [Hf' _]. apply in_map_iff. now exists f'.
Qed.

(** Clicking a field toggles its path: a path that is selected is removed
    (every entry carrying it), a path that is not selected is appended with
    the given name and type; every other field stays, in its place; a
    selection without a repeated path stays so; and clicking an unselected
    field twice gives back the selection as it was. *)
Theorem handleFieldToggle_toggles (path displayName type : string)
    (selectedFields : list SelectedField.t) :
  let toggled := handleFieldToggle path displayName type selectedFields in
  (In path (map SelectedField.path toggled)
     <-> ~ In path (map SelectedField.path selectedFields))
  /\ (forall f, SelectedField.path f <> path ->
        (In f toggled <-> In f selectedFields))
  /\ List.filter (fun f => negb (String.eqb (SelectedField.path f) path)) toggled
     = List.filter (fun f => negb (String.eqb (SelectedField.path f) path)) selectedFields
  /\ (List.NoDup (map SelectedField.path selectedFields) ->
      List.NoDup (map SelectedField.path toggled))
  /\ (~ In path (map SelectedField.path selectedFields) ->
      toggled = (selectedFields ++ [SelectedField.mk path displayName type])%list
      /\ forall displayName' type',
           handleFieldToggle path displayName' type' toggled = selectedFields).
Proof.
  intros toggled. subst toggled. unfold handleFieldToggle.
  destruct (List.find (fun f => String.eqb (SelectedField.path f) path) selectedFields)
    as [existing|] eqn:Hfind.
  - assert (Hin : In path (map SelectedField.path selectedFields)).
    { apply find_some in Hfind as [Hin Heq]. apply String.eqb_eq in Heq.
      apply in_map_iff. now exists existing. }
    split; [|split; [|split; [|split]]].
    + rewrite paths_after_filter. tauto.
    + intros f Hne. rewrite filter_In. split; [tauto|]. intros Hf. split; [exact Hf|].
      now apply negb_true_iff, String.eqb_neq.
    + clear. induction selectedFields as [|g gs IHg]; [reflexivity|].
      cbn [List.filter].
      destruct (negb (String.eqb (SelectedField.path g) path)) eqn:E;
        cbn [List.filter]; rewrite ?E, IHg; reflexivity.
    + apply NoDup_paths_filter.
    + tauto.
  - pose proof (proj1 (find_path_none path selectedFields) Hfind) as Hnot.
    assert (Hkeep : List.filter
                      (fun f => negb (String.eqb (SelectedField.path f) path))
                      selectedFields = selectedFields).
    { apply List_filter_all. intros f Hf. apply negb_true_iff, String.eqb_neq.
      intros Heq. apply Hnot. apply in_map_iff. now exists f. }
    split; [|split; [|split; [|split]]].
    + rewrite map_app, in_app_iff. simpl. tauto.
    + intros f Hne. rewrite in_app_iff. simpl. split; [|tauto].
      intros [H|[H|[]]]; [exact H|]. subst f. now contradiction Hne.
    + rewrite List.filter_app. cbn [List.filter SelectedField.path].
      rewrite String.eqb_refl. cbn [negb]. now rewrite app_nil_r.
    + intros Hnd. rewrite map_app. simpl.
      apply List.NoDup_app; [exact Hnd|repeat constructor; simpl; tauto|].
      intros p Hp [<-|[]]. now apply Hnot.
    + intros _. split; [reflexivity|]. intros displayName' type'.
      rewrite (find_append _ selectedFields _ Hfind).
      cbn [List.find SelectedField.path]. rewrite String.eqb_refl.
      rewrite List.filter_app. cbn [List.filter SelectedField.path].
      rewrite String.eqb_refl. cbn [negb]. now rewrite app_nil_r.
Qed.

(** *** One refresh of a widget *)

Import FetchData.

Section FetchDataProperties.
Variable Options : Type.
Variable respond : string -> Options -> Error.t + Response.t.
Variable latency : string -> Q.
Variable emptyOptions : Options.
Variable toISOString : Q -> string.
Variable builtin : kind -> string -> bool.



(** A run with an API URL: the fetch, then the store update with the data
    when the fetch succeeded and the transformation returned, with the error
    when the fetch failed; when the transformation did not return, the run
    ends with the widget set to loading. *)
Lemma fetchData_unfold (widget : WidgetProps.t) (skipCache : bool) (app : App) :
  WidgetProps.apiUrl widget <> "" ->
  let out :=
    fetchFromAPI Options respond latency (WidgetProps.apiUrl widget) emptyOptions
      (negb skipCache)
      (WidgetContainer.cacheDuration_of skipCache (WidgetProps.refreshInterval widget))
      (world app) in
  let result := fst out in
  let iso := toISOString (clock (snd out)) in
  let loading := setWidgetLoading (WidgetProps.id widget) (JBool true) (widgets app) in
  fetchData Options respond latency emptyOptions toISOString builtin widget skipCache app
  = if FetchResult.success result
    then match transformedData builtin widget result with
         | Returns data =>
             (Returns tt,
              mkApp (snd out) (updateWidgetData (WidgetProps.id widget) data JNull iso loading))
         | Throws => (Throws, mkApp (snd out) loading)
         | Builtin => (Builtin, mkApp (snd out) loading)
         end
    else (Returns tt,
          mkApp (snd out)
            (updateWidgetData (WidgetProps.id widget) JNull
               (error_value (FetchResult.error result)) iso loading)).
Proof.
  intros Hurl. cbv zeta. unfold fetchData.
  assert (Ht : negb (truthy (JStr (WidgetProps.apiUrl widget))) = false).
  { cbn [truthy]. rewrite negb_involutive. now apply String.eqb_neq. }
  rewrite Ht.
  destruct (fetchFromAPI Options respond latency (WidgetProps.apiUrl widget) emptyOptions
              (negb skipCache)
              (WidgetContainer.cacheDuration_of skipCache
                 (WidgetProps.refreshInterval widget))
              (world app)) as [result w].
  reflexivity.
Qed.

(** The world a run ends in is the world the fetch ends in. *)
Lemma fetchData_world (widget : WidgetProps.t) (skipCache : bool) (app : App) :
  WidgetProps.apiUrl widget <> "" ->
  world (snd (fetchData Options respond latency emptyOptions toISOString builtin widget
                skipCache app))
  = snd (fetchFromAPI Options respond latency (WidgetProps.apiUrl widget) emptyOptions
           (negb skipCache)
           (WidgetContainer.cacheDuration_of skipCache
              (WidgetProps.refreshInterval widget))
           (world app)).
Proof.
  intros Hurl. rewrite (fetchData_unfold widget skipCache app Hurl).
  destruct (FetchResult.success _); [|reflexivity].
  now destruct (transformedData builtin widget _).
Qed.




End FetchDataProperties.

(** *** The explorer and the accessor agree *)

Lemma split_dot_dotless (key : string) :
  forallb (fun c => negb (Ascii.eqb c ".")) (list_ascii_of_string key) = true ->
  split_dot key = [key].
Proof.
  induction key as [|c key IH]; simpl; [reflexivity|].
  intros H. apply andb_true_iff in H as [Hc H]. apply negb_true_iff in Hc.
  now rewrite Hc, (IH H).
Qed.

Lemma split_dot_app (a b : string) :
  split_dot (a ++ "." ++ b) = (split_dot a ++ split_dot b)%list.
Proof.
  induction a as [|c a IH]; [reflexivity|].
  change (String c a ++ "." ++ b)%string with (String c (a ++ "." ++ b)).
  cbn [split_dot]. rewrite IH. cbn [app].
  destruct (Ascii.eqb c "."); [reflexivity|].
  pose proof (split_dot_nonempty a). now destruct (split_dot a).
Qed.

Lemma split_dot_extend (t : string) :
  forallb (fun c => negb (Ascii.eqb c ".")) (list_ascii_of_string t) = true ->
  forall (a : string) (init : list string) (s : string),
    split_dot a = (init ++ [s])%list ->
    split_dot (a ++ t) = (init ++ [(s ++ t)%string])%list.
Proof.
  intros Ht. induction a as [|c a IH]; intros init s Ha.
  - simpl in Ha. destruct init as [|i0 init].
    + injection Ha as <-. simpl. now apply split_dot_dotless.
    + destruct init; discriminate.
  - change (String c a ++ t)%string with (String c (a ++ t)).
    cbn [split_dot] in *.
    destruct (Ascii.eqb c ".").
    + destruct init as [|i0 init].
      * exfalso. simpl in Ha. injection Ha as _ Ha. now apply (split_dot_nonempty a).
      * simpl in Ha. injection Ha as <- Ha. now rewrite (IH init s Ha).
    + destruct (split_dot a) as [|seg segs] eqn:Ea;
        [now apply split_dot_nonempty in Ea|].
      destruct init as [|i0 init].
      * simpl in Ha. injection Ha as <- ->. now rewrite (IH [] seg eq_refl).
      * simpl in Ha. injection Ha as <- ->.
        now rewrite (IH (seg :: init) s eq_refl).
Qed.

Lemma simple_key_parts (key : string) :
  simple_key key = true ->
  key <> ""
  /\ forallb (fun c => negb (Ascii.eqb c ".")) (list_ascii_of_string key) = true
  /\ forallb (fun c => negb (is_line_terminator c)) (list_ascii_of_string key) = true
  /\ match_array_key key = None.
Proof.
  unfold simple_key. intros H.
  apply andb_true_iff in H as [H Hm]. apply andb_true_iff in H as [Hne Hc].
  apply negb_true_iff, String.eqb_neq in Hne.
  split; [exact Hne|].
  assert (Hboth : forall l : list ascii,
             forallb (fun c => negb (is_path_breaker c)) l = true ->
             forallb (fun c => negb (Ascii.eqb c ".")) l = true
             /\ forallb (fun c => negb (is_line_terminator c)) l = true).
  { induction l as [|c l IH]; simpl; [auto|]. intros Hl.
    apply andb_true_iff in Hl as [Hc' Hl]. unfold is_path_breaker in Hc'.
    apply negb_true_iff, orb_false_iff in Hc' as [-> ->]. simpl. now apply IH. }
  destruct (Hboth _ Hc) as [Hd Ht].
  split; [exact Hd|]. split; [exact Ht|].
  now destruct (match_array_key key).
Qed.

Lemma step_simple_key (builtin : kind -> string -> bool) (current : jsvalue)
    (key : string) :
  simple_key key = true -> step builtin current key = read_prop builtin current key.
Proof.
  intros H. apply simple_key_parts in H as (_ & _ & _ & Hm). unfold step. now rewrite Hm.
Qed.

Lemma step_first_element (builtin : kind -> string -> bool) (current : jsvalue)
    (key : string) :
  simple_key key = true ->
  step builtin current (key ++ "[0]")
  = and_then (read_prop builtin current key) (fun found => read_prop builtin found "0").
Proof.
  intros H. apply simple_key_parts in H as (Hne & _ & Ht & _). unfold step.
  change (key ++ "[0]")%string with (key ++ "[" ++ "0" ++ "]")%string.
  now rewrite (match_array_key_complete key "0" Hne ltac:(discriminate) Ht eq_refl).
Qed.

Lemma assoc_member (key : string) (value : jsvalue) (props : list (string * jsvalue)) :
  distinct (map fst props) = true -> In (key, value) props ->
  assoc key props = Some value.
Proof.
  induction props as [|[k x] rest IH]; intros Hd Hin; [contradiction|].
  destruct Hin as [Heq|Hin].
  - injection Heq as -> ->. simpl. now rewrite String.eqb_refl.
  - simpl. destruct (String.eqb k key) eqn:E.
    + apply String.eqb_eq in E. subst k.
      pose proof (assoc_distinct_head _ _ _ Hd) as Hnone.
      rewrite (IH (distinct_tail _ _ Hd) Hin) in Hnone. discriminate.
    + exact (IH (distinct_tail _ _ Hd) Hin).
Qed.

Lemma well_keyed_member (key : string) (value : jsvalue)
    (props : list (string * jsvalue)) :
  well_keyed (JObj props) = true -> In (key, value) props ->
  simple_key key = true /\ well_keyed value = true
  /\ assoc key props = Some value.
Proof.
  cbn [well_keyed]. intros H Hin. apply andb_true_iff in H as [Hd Hm].
  split; [|split; [|now apply assoc_member]].
  - induction props as [|kv rest IH]; [contradiction|].
    apply andb_true_iff in Hm as [Hkv Hm]. apply andb_true_iff in Hkv as [Hk _].
    destruct Hin as [->|Hin]; [exact Hk|].
    apply IH; [exact (distinct_tail _ _ Hd)|exact Hm|exact Hin].
  - induction props as [|kv rest IH]; [contradiction|].
    apply andb_true_iff in Hm as [Hkv Hm]. apply andb_true_iff in Hkv as [_ Hv].
    destruct Hin as [->|Hin]; [exact Hv|].
    apply IH; [exact (distinct_tail _ _ Hd)|exact Hm|exact Hin].
Qed.

Section Resolve.
Variable builtin : kind -> string -> bool.

Lemma getNestedValue_walk (root : jsvalue) (path : string) :
  truthy root = true -> path <> "" ->
  getNestedValue builtin root path = reduce builtin (split_dot path) root.
Proof.
  intros Hroot Hpath. unfold getNestedValue. cbn [truthy]. rewrite Hroot.
  apply String.eqb_neq in Hpath. now rewrite Hpath.
Qed.

(** A walk that arrives after a last segment arrived somewhere before it. *)
Lemma reduce_last (init : list string) (key : string) (root v : jsvalue) :
  reduce builtin (init ++ [key])%list root = Returns v ->
  exists mid, reduce builtin init root = Returns mid /\ step builtin mid key = Returns v.
Proof.
  rewrite reduce_app. destruct (reduce builtin init root) as [mid| |]; try discriminate.
  cbn [and_then]. rewrite reduce_cons. intros H. exists mid. split; [reflexivity|].
  destruct (step builtin mid key); try discriminate. exact H.
Qed.

Lemma reduce_snoc (init : list string) (key : string) (root mid : jsvalue) :
  reduce builtin init root = Returns mid ->
  reduce builtin (init ++ [key])%list root = step builtin mid key.
Proof.
  intros H. rewrite reduce_app, H. cbn [and_then]. rewrite reduce_cons.
  now destruct (step builtin mid key).
Qed.

(** From an array to its element 0. *)
Lemma stands_at_element (root first : jsvalue) (rest : list jsvalue)
    (currentPath : string) (segs : list string) :
  stands_at builtin root (JArr (first :: rest)) currentPath segs ->
  currentPath <> ""
  /\ split_dot currentPath = segs
  /\ (is_array first = false ->
      exists segs', stands_at builtin root first (currentPath ++ "[0]") segs').
Proof.
  intros (Hempty & Hsplit & Hwalk & Harr).
  destruct (Harr eq_refl) as (init & key & -> & Hkey).
  assert (Hpath : currentPath <> "").
  { intros Heq. apply Hempty in Heq. now destruct init. }
  split; [exact Hpath|]. split; [exact (Hsplit Hpath)|].
  intros Hnot. exists (init ++ [(key ++ "[0]")%string])%list.
  split; [|split; [|split]].
  - intros Heq. destruct currentPath; discriminate.
  - intros _. apply split_dot_extend; [reflexivity|exact (Hsplit Hpath)].
  - destruct (reduce_last _ _ _ _ Hwalk) as (mid & Hmid & Hstep).
    rewrite (reduce_snoc _ _ _ _ Hmid), (step_first_element _ _ _ Hkey).
    rewrite (step_simple_key _ _ _ Hkey) in Hstep. now rewrite Hstep.
  - intros Harr'. congruence.
Qed.

(** From an object to one of its members. *)
Lemma stands_at_member (root : jsvalue) (props : list (string * jsvalue))
    (currentPath : string) (segs : list string) (key : string) (value : jsvalue) :
  stands_at builtin root (JObj props) currentPath segs ->
  well_keyed (JObj props) = true ->
  In (key, value) props ->
  let newPath := if negb (String.eqb currentPath "")
                 then (currentPath ++ "." ++ key)%string else key in
  newPath <> ""
  /\ split_dot newPath = (segs ++ [key])%list
  /\ reduce builtin (segs ++ [key])%list root = Returns value
  /\ well_keyed value = true
  /\ stands_at builtin root value newPath (segs ++ [key])%list.
Proof.
  intros (Hempty & Hsplit & Hwalk & _) Hwk Hkv newPath.
  destruct (well_keyed_member key value props Hwk Hkv) as (Hkey & Hvalue & Hassoc).
  destruct (simple_key_parts key Hkey) as (Hne & Hdot & _ & _).
  assert (Hnew : newPath <> "").
  { subst newPath. destruct (negb (String.eqb currentPath "")); [|exact Hne].
    destruct currentPath; discriminate. }
  assert (Hsegs : split_dot newPath = (segs ++ [key])%list).
  { subst newPath.
    destruct (String.eqb currentPath "") eqn:E; cbn [negb].
    - apply String.eqb_eq in E. rewrite (Hempty E). now apply split_dot_dotless.
    - apply String.eqb_neq in E.
      now rewrite split_dot_app, (Hsplit E), (split_dot_dotless key Hdot). }
  assert (Hreach : reduce builtin (segs ++ [key])%list root = Returns value).
  { rewrite (reduce_snoc _ _ _ _ Hwalk), (step_simple_key _ _ _ Hkey).
    apply read_prop_own. exact Hassoc. }
  split; [exact Hnew|]. split; [exact Hsegs|]. split; [exact Hreach|].
  split; [exact Hvalue|].
  split; [|split; [|split]].
  - intros Heq. contradiction.
  - intros _. exact Hsegs.
  - exact Hreach.
  - intros _. now exists segs, key.
Qed.

Lemma explore_resolves (maxDepth : Z) (root : jsvalue) (v : jsvalue) :
  truthy root = true ->
  forall (currentPath : string) (depth : Z) (segs : list string),
    well_keyed v = true ->
    stands_at builtin root v currentPath segs ->
    forall d, In d (explore maxDepth v currentPath depth) ->
      exists found,
        getNestedValue builtin root (PathInfo.path d) = Returns found
        /\ describes d found.
Proof.
  intros Hroot.
  induction v as [| | | | |items IH|props IH] using jsvalue_nested_ind;
    intros currentPath depth segs Hwk Hat d Hin; simpl in Hin;
    destruct (depth >? maxDepth)%Z; try contradiction.
  - (* an array *)
    destruct items as [|first rest]; [contradiction|].
    pose proof Hat as (_ & _ & Hwalk & _).
    destruct (stands_at_element _ _ _ _ _ Hat) as (Hpath & Hsplit & Hnext).
    destruct Hin as [<-|Hin].
    + exists (JArr (first :: rest)). unfold describes. cbn [PathInfo.path PathInfo.type].
      rewrite (getNestedValue_walk root currentPath Hroot Hpath).
      rewrite Hsplit, Hwalk. split; [reflexivity|]. split; [reflexivity|discriminate].
    + cbn [well_keyed] in Hwk. apply andb_true_iff in Hwk as [Hnot Hfirst].
      apply negb_true_iff in Hnot. destruct (Hnext Hnot) as [segs' Hat'].
      apply Forall_inv in IH.
      exact (IH (currentPath ++ "[0]")%string (depth + 1)%Z segs' Hfirst Hat' d Hin).
  - (* an object *)
    apply in_flat_map in Hin as ([key value] & Hkv & Hin).
    rewrite List.Forall_forall in IH. specialize (IH _ Hkv). cbn [snd] in IH.
    destruct (stands_at_member _ _ _ _ _ _ Hat Hwk Hkv)
      as (Hnew & Hsegs & Hreach & Hvalue & Hat').
    set (newPath := if negb (String.eqb currentPath "")
                    then (currentPath ++ "." ++ key)%string else key) in *.
    destruct Hin as [<-|Hin].
    + exists value. unfold describes. cbn [PathInfo.path PathInfo.type PathInfo.value].
      fold newPath. rewrite (getNestedValue_walk root newPath Hroot Hnew).
      rewrite Hsegs, Hreach. split; [reflexivity|]. split; [reflexivity|]. now intros ->.
    + destruct (is_structured (type_tag value)); [|contradiction].
      exact (IH newPath (depth + 1)%Z (segs ++ [key])%list Hvalue Hat' d Hin).
Qed.

End Resolve.

(** The paths the explorer offers are paths the accessor resolves.  For data
    that is not an array at the top and is well keyed (along what the
    explorer visits, the keys of an object are distinct and simple, and the
    element 0 of an array is no array), every descriptor of
    [exploreJSONPaths(obj, '', maxDepth)] names a path at which
    [getNestedValue(obj, path)] finds a value of the type the descriptor
    states, and for a primitive type the very value the descriptor carries;
    this whatever the built-in prototypes define. *)
Theorem exploreJSONPaths_resolve (builtin : kind -> string -> bool) (obj : jsvalue)
    (maxDepth : Z) :
  is_array obj = false ->
  well_keyed obj = true ->
  forall d, In d (exploreJSONPaths obj "" maxDepth) ->
    exists found,
      getNestedValue builtin obj (PathInfo.path d) = Returns found
      /\ describes d found.
Proof.
  intros Harr Hwk d Hin. unfold exploreJSONPaths in Hin.
  destruct (truthy obj) eqn:Ht.
  - apply (explore_resolves builtin maxDepth obj obj Ht "" 0%Z [] Hwk); [|exact Hin].
    split; [reflexivity|]. split; [congruence|]. split; [reflexivity|].
    intros H. congruence.
  - destruct obj; try discriminate; simpl in Hin;
      destruct (0 >? maxDepth)%Z; contradiction.
Qed.

Lemma append_empty_r (s : string) : (s ++ "")%string = s.
Proof.
  induction s as [|c s IH]; [reflexivity|].
  change (String c (s ++ "") = String c s). now f_equal.
Qed.

Lemma append_assoc (a b c : string) : ((a ++ b) ++ c)%string = (a ++ (b ++ c))%string.
Proof.
  induction a as [|x a IH]; [reflexivity|].
  change (String x ((a ++ b) ++ c) = String x (a ++ (b ++ c))). now f_equal.
Qed.

(** Every path [explore] emits extends the path it was called with. *)
Lemma explore_path_prefix (maxDepth : Z) (v : jsvalue) :
  forall (currentPath : string) (depth : Z) (d : PathInfo.t),
    currentPath <> "" ->
    In d (explore maxDepth v currentPath depth) ->
    exists suffix, PathInfo.path d = (currentPath ++ suffix)%string.
Proof.
  induction v as [| | | | |items IH|props IH] using jsvalue_nested_ind;
    intros currentPath depth d Hne Hin; simpl in Hin;
    destruct (depth >? maxDepth)%Z; try contradiction.
  - destruct items as [|first rest]; [contradiction|].
    destruct Hin as [<-|Hin]; [exists ""; cbn [PathInfo.path]; symmetry; apply append_empty_r|].
    apply Forall_inv in IH. apply IH in Hin as [suffix Hp].
    + exists ("[0]" ++ suffix)%string. now rewrite Hp, append_assoc.
    + destruct currentPath; discriminate.
  - apply in_flat_map in Hin as ([key value] & Hkv & Hin).
    rewrite List.Forall_forall in IH. specialize (IH _ Hkv). cbn [snd] in IH.
    apply String.eqb_neq in Hne. rewrite Hne in Hin. cbn [negb] in Hin.
    destruct Hin as [<-|Hin]; [now exists ("." ++ key)%string|].
    destruct (is_structured (type_tag value)); [|contradiction].
    apply IH in Hin as [suffix Hp].
    + exists (("." ++ key) ++ suffix)%string. now rewrite Hp, !append_assoc.
    + destruct currentPath; discriminate.
Qed.

Section TopArray.
Variable builtin : kind -> string -> bool.

Lemma read_prop_array_bracket (items : list jsvalue) (s : string) :
  read_prop builtin (JArr items) (String "[" s)
  = if builtin KArray (String "[" s) then Builtin else Returns JUndefined.
Proof. reflexivity. Qed.

(** A segment that starts with a bracket is read on an array as a property
    name: it finds nothing, unless the prototypes of arrays have a member of
    such a name. *)
Lemma step_array_bracket (items : list jsvalue) (seg : string) :
  exists name,
    step builtin (JArr items) (String "[" seg)
    = if builtin KArray (String "[" name) then Builtin else Returns JUndefined.
Proof.
  unfold step. destruct (match_array_key (String "[" seg)) as [[a idx]|] eqn:E.
  - apply match_array_key_sound in E as (Hkey & Ha & _).
    destruct a as [|c a]; [congruence|]. simpl in Hkey. injection Hkey as <- _.
    exists a. rewrite read_prop_array_bracket.
    now destruct (builtin KArray (String "[" a)).
  - exists seg. apply read_prop_array_bracket.
Qed.

Lemma fold_step_builtin (segments : list string) :
  fold_left (fun reached key => and_then reached (fun current => step builtin current key))
    segments (@Builtin jsvalue)
  = Builtin.
Proof. induction segments as [|key rest IH]; simpl; [reflexivity|exact IH]. Qed.

Lemma top_array_path (items : list jsvalue) (suffix : string) :
  exists name,
    reduce builtin (split_dot (String "[" (String "0" (String "]" suffix)))) (JArr items)
    = if builtin KArray (String "[" name) then Builtin else Returns JUndefined.
Proof.
  cbn [split_dot Ascii.eqb Bool.eqb].
  pose proof (split_dot_nonempty suffix) as Hs.
  destruct (split_dot suffix) as [|seg segs]; [congruence|].
  rewrite reduce_cons.
  destruct (step_array_bracket items (String "0" (String "]" seg))) as [name Hstep].
  exists name. rewrite Hstep.
  destruct (builtin KArray (String "[" name)); [reflexivity|].
  apply reduce_undefined.
Qed.

End TopArray.

(** Under an array at the top no explored path resolves.  The explorer
    prefixes the paths found in element 0 with [[0]], a segment the accessor
    reads as a property name of the array; so for every descriptor of
    [exploreJSONPaths(array, '', maxDepth)] but the one of the array itself
    (whose path is empty), [getNestedValue(array, path)] does not find the
    value: it is [undefined], the prototypes of arrays defining no name that
    starts with a bracket. *)
Theorem exploreJSONPaths_top_array_unresolved (builtin : kind -> string -> bool)
    (items : list jsvalue) (maxDepth : Z) (d : PathInfo.t) :
  In d (exploreJSONPaths (JArr items) "" maxDepth) ->
  (PathInfo.path d = ""
   /\ PathInfo.type d = "array"
   /\ getNestedValue builtin (JArr items) (PathInfo.path d) = Returns (JArr items))
  \/ (PathInfo.path d <> ""
      /\ (getNestedValue builtin (JArr items) (PathInfo.path d) = Returns JUndefined
          \/ getNestedValue builtin (JArr items) (PathInfo.path d) = Builtin)
      /\ ((forall name, builtin KArray (String "[" name) = false) ->
          getNestedValue builtin (JArr items) (PathInfo.path d) = Returns JUndefined)).
Proof.
  unfold exploreJSONPaths. intros Hin. simpl in Hin.
  destruct (0 >? maxDepth)%Z; [contradiction|].
  destruct items as [|first rest]; [contradiction|].
  destruct Hin as [<-|Hin]; [left; repeat split|right].
  apply explore_path_prefix in Hin as [suffix Hp]; [|discriminate].
  assert (Hne : PathInfo.path d <> "") by (rewrite Hp; discriminate).
  split; [exact Hne|].
  rewrite (getNestedValue_walk builtin (JArr (first :: rest)) _ eq_refl Hne), Hp.
  change (("" ++ "[0]") ++ suffix)%string with (String "[" (String "0" (String "]" suffix))).
  destruct (top_array_path builtin (first :: rest) suffix) as [name ->].
  split.
  - destruct (builtin KArray (String "[" name)); [now right|now left].
  - intros Hnone. now rewrite Hnone.
Qed.

(** A field picked in the explorer shows the value the explorer showed: for a
    well-keyed object, a descriptor of primitive type, selected alone under
    a display name, makes [transformAPIData] return the one row that maps
    the name to the descriptor's value, whatever the kind of the widget;
    under the display name [__proto__] the row has no key. *)
Theorem explored_field_shown (builtin : kind -> string -> bool)
    (props : list (string * jsvalue)) (maxDepth : Z)
    (d : PathInfo.t) (displayName widgetType : string) :
  well_keyed (JObj props) = true ->
  In d (exploreJSONPaths (JObj props) "" maxDepth) ->
  is_structured (PathInfo.type d) = false ->
  transformAPIData builtin (JObj props) [FieldMapping.mk (PathInfo.path d) displayName]
    widgetType
  = Returns [JObj (if String.eqb displayName "__proto__" then []
                   else [(displayName, PathInfo.value d)])].
Proof.
  intros Hwk Hin Hprim.
  assert (Hd : exists found,
             getNestedValue builtin (JObj props) (PathInfo.path d) = Returns found
             /\ describes d found).
  { apply (explore_resolves builtin maxDepth (JObj props) (JObj props) eq_refl "" 0%Z []
             Hwk); [|exact Hin].
    split; [reflexivity|]. split; [congruence|]. split; [reflexivity|discriminate]. }
  destruct Hd as (found & Hfound & _ & Hvalue). specialize (Hvalue Hprim).
  unfold transformAPIData. cbn [truthy negb orb List.length Nat.eqb Nat.ltb Nat.leb].
  rewrite andb_false_r. unfold build_row. cbn [fold_left FieldMapping.displayName
    FieldMapping.path and_then]. rewrite Hfound. cbn [and_then]. unfold assign.
  rewrite andb_true_r, Hvalue.
  now destruct (String.eqb displayName "__proto__").
Qed.

(** *** Pagination of the table *)

Import StockTable.

Lemma totalPages_ceil {A} (l : list A) :
  totalPages l = ((Z.of_nat (List.length l) + 9) / 10)%Z.
Proof.
  unfold totalPages, itemsPerPage.
  set (n := Z.of_nat (List.length l)).
  assert (Heq : (inject_Z n / inject_Z 10 == n # 10)%Q).
  { unfold Qdiv, Qmult, Qinv, inject_Z, Qeq. simpl. lia. }
  rewrite (Qceiling_comp _ _ Heq). unfold Qceiling, Qfloor, Qopp. cbn [Qnum Qden].
  assert (Hn : (0 <= n)%Z) by (subst n; lia).
  pose proof (Z.div_mod (- n) 10 ltac:(lia)) as H1.
  pose proof (Z.mod_pos_bound (- n) 10 ltac:(lia)) as H2.
  pose proof (Z.div_mod (n + 9) 10 ltac:(lia)) as H3.
  pose proof (Z.mod_pos_bound (n + 9) 10 ltac:(lia)) as H4.
  lia.
Qed.

Lemma take_min_length {A} (n : nat) (l : list A) :
  take (Nat.min n (List.length l)) l = take n l.
Proof.
  destruct (Nat.le_gt_cases n (List.length l)) as [H|H].
  - now rewrite Nat.min_l.
  - rewrite Nat.min_r by lia. rewrite !take_ge; [reflexivity|lia|lia].
Qed.

(** The rows of page [i + 1]: ten rows from row [10 * i] on. *)
Lemma currentData_chunk {A} (i : nat) (l : list A) :
  currentData (Z.of_nat (S i)) l = take 10 (drop (10 * i) l).
Proof.
  unfold currentData, slice, endIndex, startIndex, itemsPerPage.
  set (len := Z.of_nat (List.length l)).
  assert (H1 : ((Z.of_nat (S i) - 1) * 10 <? 0)%Z = false) by (apply Z.ltb_ge; lia).
  assert (H2 : ((Z.of_nat (S i) - 1) * 10 + 10 <? 0)%Z = false) by (apply Z.ltb_ge; lia).
  rewrite H1, H2.
  destruct (Nat.le_gt_cases (List.length l) (10 * i)) as [Hout|Hin].
  - rewrite (drop_ge l (10 * i)) by lia.
    rewrite (drop_ge l) by (subst len; lia).
    now rewrite !take_nil.
  - replace (Z.to_nat (Z.min ((Z.of_nat (S i) - 1) * 10) len)) with (10 * i)%nat
      by (subst len; lia).
    rewrite <- (take_min_length 10). rewrite length_drop. f_equal. subst len. lia.
Qed.

Lemma chunks_concat {A} (k : nat) :
  forall l : list A,
    (List.length l <= 10 * k)%nat ->
    concat (map (fun i => take 10 (drop (10 * i) l)) (seq 0 k)) = l.
Proof.
  induction k as [|k IH]; intros l Hlen.
  - destruct l; [reflexivity|simpl in Hlen; lia].
  - cbn [seq map concat]. rewrite <- seq_shift, map_map.
    transitivity (take 10 l ++ drop 10 l)%list; [|apply take_drop].
    f_equal.
    etransitivity; [|apply (IH (drop 10 l)); rewrite length_drop; lia].
    f_equal. apply map_ext. intros i. rewrite drop_drop. f_equal. f_equal. lia.
Qed.

Lemma In_pages {A} (l : list A) (p : Z) :
  In p (pages l) <-> (1 <= p <= totalPages l)%Z.
Proof.
  unfold pages. rewrite in_map_iff. split.
  - intros (i & <- & Hi). apply in_seq in Hi. lia.
  - intros Hp. exists (Z.to_nat (p - 1)). split; [lia|]. apply in_seq. lia.
Qed.

Lemma page_rows {A} (l : list A) (p : Z) :
  (1 <= p <= totalPages l)%Z ->
  (1 <= List.length (currentData p l) <= 10)%nat.
Proof.
  intros Hp. rewrite totalPages_ceil in Hp.
  replace p with (Z.of_nat (S (Z.to_nat (p - 1)))) by lia.
  rewrite currentData_chunk, length_take, length_drop.
  assert (Hdiv : (10 * (p - 1) < Z.of_nat (List.length l))%Z).
  { pose proof (Z.div_mod (Z.of_nat (List.length l) + 9) 10 ltac:(lia)) as H3.
    pose proof (Z.mod_pos_bound (Z.of_nat (List.length l) + 9) 10 ltac:(lia)) as H4.
    lia. }
  lia.
Qed.

(** The pages partition the rows: the pages [1 .. totalPages], one after the
    other, show every row exactly once and in order, and each of them shows
    between one and ten rows. *)
Theorem pages_partition {A} (filteredData : list A) :
  concat (map (fun page => currentData page filteredData) (pages filteredData))
  = filteredData
  /\ Forall (fun page =>
       (1 <= List.length (currentData page filteredData) <= 10)%nat)
       (pages filteredData).
Proof.
  split.
  - unfold pages. rewrite map_map.
    rewrite (map_ext _ (fun i => take 10 (drop (10 * i) filteredData)))
      by (intros i; apply currentData_chunk).
    apply chunks_concat. rewrite totalPages_ceil.
    pose proof (Z.div_mod (Z.of_nat (List.length filteredData) + 9) 10 ltac:(lia)) as H3.
    pose proof (Z.mod_pos_bound (Z.of_nat (List.length filteredData) + 9) 10 ltac:(lia))
      as H4.
    lia.
  - apply List.Forall_forall. intros p Hp. apply page_rows. now apply In_pages.
Qed.

(** [goToPage] never leaves the table: whatever page is asked for, the page
    set is at least 1; when there are rows it is one of the pages
    [1 .. totalPages] and shows at least one row, and a page in that range is
    taken as asked; with no row it is page 1, which shows nothing. *)
Theorem goToPage_in_range {A} (page : Z) (filteredData : list A) :
  (1 <= goToPage page filteredData)%Z
  /\ (filteredData <> [] ->
      In (goToPage page filteredData) (pages filteredData)
      /\ currentData (goToPage page filteredData) filteredData <> []
      /\ (In page (pages filteredData) -> goToPage page filteredData = page))
  /\ (filteredData = [] ->
      goToPage page filteredData = 1%Z
      /\ currentData (goToPage page filteredData) filteredData = []).
Proof.
  split; [unfold goToPage; lia|]. split.
  - intros Hne.
    assert (Htotal : (1 <= totalPages filteredData)%Z).
    { rewrite totalPages_ceil. destruct filteredData as [|x l]; [congruence|].
      cbn [List.length].
      pose proof (Z.div_mod (Z.of_nat (S (List.length l)) + 9) 10 ltac:(lia)) as H3.
      pose proof (Z.mod_pos_bound (Z.of_nat (S (List.length l)) + 9) 10 ltac:(lia)) as H4.
      lia. }
    assert (Hin : (1 <= goToPage page filteredData <= totalPages filteredData)%Z)
      by (unfold goToPage; lia).
    split; [now apply In_pages|]. split.
    + pose proof (page_rows filteredData _ Hin) as Hrows.
      destruct (currentData (goToPage page filteredData) filteredData);
        [simpl in Hrows; lia|discriminate].
    + rewrite In_pages. unfold goToPage. lia.
  - intros ->. unfold goToPage. rewrite totalPages_ceil. cbn [List.length].
    change ((Z.of_nat 0 + 9) / 10)%Z with 0%Z.
    split; [lia|]. unfold currentData, slice.
    now rewrite drop_nil, take_nil.
Qed.

(** *** The fields offered for selection *)

Import JSONFieldExplorer.

Lemma last_segment (segs : list string) (key : string) :
  List.last (segs ++ [key])%list "" = key.
Proof. induction segs as [|s [|s' segs] IH]; simpl in *; auto. Qed.

Lemma renderJSON_resolves (builtin : kind -> string -> bool)
    (expandedPaths : gset string) (root : jsvalue) (v : jsvalue) :
  truthy root = true ->
  forall (path : string) (segs : list string),
    well_keyed v = true ->
    stands_at builtin root v path segs ->
    forall f, In f (renderJSON expandedPaths v path) ->
      SelectedField.path f <> ""
      /\ (exists found,
            getNestedValue builtin root (SelectedField.path f) = Returns found
            /\ typeof found = SelectedField.type f
            /\ isExpandable found = false)
      /\ List.last (split_dot (SelectedField.path f)) "" = SelectedField.displayName f.
Proof.
  intros Hroot.
  induction v as [| | | | |items IH|props IH] using jsvalue_nested_ind;
    intros path segs Hwk Hat f Hin; simpl in Hin; try contradiction.
  - destruct items as [|first rest]; [contradiction|].
    destruct (stands_at_element _ _ _ _ _ _ Hat) as (_ & _ & Hnext).
    cbn [well_keyed] in Hwk. apply andb_true_iff in Hwk as [Hnot Hfirst].
    apply negb_true_iff in Hnot. destruct (Hnext Hnot) as [segs' Hat'].
    apply Forall_inv in IH.
    exact (IH (path ++ "[0]")%string segs' Hfirst Hat' f Hin).
  - apply in_flat_map in Hin as ([key value] & Hkv & Hin).
    rewrite List.Forall_forall in IH. specialize (IH _ Hkv). cbn [snd] in IH.
    destruct (stands_at_member _ _ _ _ _ _ _ Hat Hwk Hkv)
      as (Hnew & Hsegs & Hreach & Hvalue & Hat').
    set (currentPath := if negb (String.eqb path "")
                        then (path ++ "." ++ key)%string else key) in *.
    apply in_app_iff in Hin as [Hin|Hin].
    + destruct (isExpandable value) eqn:Hexp; cbn [negb] in Hin; [contradiction|].
      destruct Hin as [<-|[]].
      cbn [SelectedField.path SelectedField.type SelectedField.displayName].
      split; [exact Hnew|]. split.
      * exists value.
        rewrite (getNestedValue_walk builtin root currentPath Hroot Hnew), Hsegs, Hreach.
        split; [reflexivity|]. split; [reflexivity|exact Hexp].
      * rewrite Hsegs. apply last_segment.
    + destruct (bool_decide (currentPath ∈ expandedPaths) && isExpandable value);
        [|contradiction].
      exact (IH currentPath (segs ++ [key])%list Hvalue Hat' f Hin).
Qed.

(** What can be clicked can be fetched.  For data that is not an array at the
    top and is well keyed, whatever subtrees are expanded, every field the
    explorer lets the user click carries a non-empty path at which
    [getNestedValue] finds a value that is not expandable (a primitive or
    null) and has the type the click reports, and the display name it
    reports is the last segment of that path. *)
Theorem clicks_resolve (builtin : kind -> string -> bool) (expandedPaths : gset string)
    (jsonData : jsvalue) :
  is_array jsonData = false ->
  well_keyed jsonData = true ->
  forall f, In f (clicks expandedPaths jsonData) ->
    SelectedField.path f <> ""
    /\ (exists found,
          getNestedValue builtin jsonData (SelectedField.path f) = Returns found
          /\ typeof found = SelectedField.type f
          /\ isExpandable found = false)
    /\ List.last (split_dot (SelectedField.path f)) "" = SelectedField.displayName f.
Proof.
  intros Harr Hwk f Hin. unfold clicks in Hin.
  destruct (truthy jsonData) eqn:Ht; cbn [negb] in Hin; [|contradiction].
  apply (renderJSON_resolves builtin expandedPaths jsonData jsonData Ht "" [] Hwk);
    [|exact Hin].
  split; [reflexivity|]. split; [congruence|]. split; [reflexivity|].
  intros H. congruence.
Qed.

(** Expanding and collapsing a subtree: [toggleExpand] flips the path it is
    given and no other, so two clicks on the same arrow restore the set. *)
Theorem toggleExpand_flips (path : string) (expandedPaths : gset string) :
  (path ∈ toggleExpand path expandedPaths <-> path ∉ expandedPaths)
  /\ (forall other, other <> path ->
        (other ∈ toggleExpand path expandedPaths <-> other ∈ expandedPaths))
  /\ toggleExpand path (toggleExpand path expandedPaths) = expandedPaths.
Proof.
  assert (Hflip : forall S : gset string,
             (path ∈ toggleExpand path S <-> path ∉ S)
             /\ (forall other, other <> path ->
                   (other ∈ toggleExpand path S <-> other ∈ S))).
  { intros S. unfold toggleExpand. destruct (bool_decide (path ∈ S)) eqn:E.
    - apply bool_decide_eq_true in E. split.
      + rewrite elem_of_difference, elem_of_singleton. tauto.
      + intros other Hne. rewrite elem_of_difference, elem_of_singleton. tauto.
    - apply bool_decide_eq_false in E. split.
      + rewrite elem_of_union, elem_of_singleton. tauto.
      + intros other Hne. rewrite elem_of_union, elem_of_singleton. tauto. }
  destruct (Hflip expandedPaths) as [H1 H2]. split; [exact H1|]. split; [exact H2|].
  apply set_eq. intros x.
  destruct (Hflip (toggleExpand path expandedPaths)) as [H3 H4].
  destruct (decide (x = path)) as [->|Hne].
  - rewrite H3, H1. destruct (decide (path ∈ expandedPaths)); tauto.
  - now rewrite (H4 x Hne), (H2 x Hne).
Qed.

Section SharedCache.
Variable Options : Type.
Variable respond : string -> Options -> Error.t + Response.t.
Variable latency : string -> Q.
Variable emptyOptions : Options.
Variable toISOString : Q -> string.
Variable builtin : kind -> string -> bool.


(** A manual refresh goes around the cache.  [fetchData(true)] neither reads
    nor writes the cache: whatever entry the URL has, the request goes to the
    network (and at most once more, through the proxy), and the cache is
    afterwards exactly as it was, so the other widgets on the URL keep
    getting the older cached body until it expires. *)
Theorem fetchData_manual_refresh (widget : WidgetProps.t) (app : App) :
  let after :=
    snd (fetchData Options respond latency emptyOptions toISOString builtin widget true
           app) in
  apiCache (world after) = apiCache (world app)
  /\ (WidgetProps.apiUrl widget <> "" ->
      requests (world after)
      = (requests (world app) ++ [WidgetProps.apiUrl widget])%list
      \/ requests (world after)
         = (requests (world app)
            ++ [WidgetProps.apiUrl widget;
                (CORS_PROXY ++ WidgetProps.apiUrl widget)%string])%list).
Proof.
  intros after. subst after.
  destruct (String.eqb (WidgetProps.apiUrl widget) "") eqn:E.
  - apply String.eqb_eq in E. unfold fetchData. rewrite E. cbn [truthy String.eqb negb].
    split; [reflexivity|]. intros H. now contradiction H.
  - apply String.eqb_neq in E.
    rewrite (fetchData_world Options respond latency emptyOptions toISOString builtin
               widget true app E).
    cbn [negb].
    change (fetchFromAPI Options respond latency (WidgetProps.apiUrl widget) emptyOptions
              false (cacheDuration_of true (WidgetProps.refreshInterval widget))
              (world app))
      with (fetch_uncached Options respond latency (WidgetProps.apiUrl widget)
              emptyOptions false
              (cacheDuration_of true (WidgetProps.refreshInterval widget))
              (world app)).
    split; [apply fetch_uncached_no_cache|]. intros _.
    destruct (fetch_uncached_requests Options respond latency (WidgetProps.apiUrl widget)
                emptyOptions false
                (cacheDuration_of true (WidgetProps.refreshInterval widget))
                (world app))
      as [H|[H _]]; [left|right]; exact H.
Qed.
End SharedCache.

(** *** Paths compose; the footprint of a fetch on the cache *)

(** A path can be walked in two legs: for truthy data and non-empty paths
    [p] and [q], when the value at [p] is truthy, the value at [p.q] is the
    value at [q] of the value at [p]. *)
Theorem getNestedValue_compose (builtin : kind -> string -> bool) (obj mid : jsvalue)
    (p q : string) :
  truthy obj = true ->
  p <> "" ->
  q <> "" ->
  getNestedValue builtin obj p = Returns mid ->
  truthy mid = true ->
  getNestedValue builtin obj (p ++ "." ++ q) = getNestedValue builtin mid q.
Proof.
  intros Hobj Hp Hq Hfound Hmid.
  assert (Hpq : (p ++ "." ++ q)%string <> "") by (destruct p; discriminate).
  rewrite (getNestedValue_walk builtin obj _ Hobj Hpq), split_dot_app, reduce_app.
  rewrite <- (getNestedValue_walk builtin obj p Hobj Hp), Hfound. cbn [and_then].
  now rewrite (getNestedValue_walk builtin _ q Hmid Hq).
Qed.

Lemma getNestedValue_compose_witness :
  truthy Scenario.quotes = true
  /\ getNestedValue Scenario.builtin Scenario.quotes "data.rates[0]"
     = Returns (JObj [("usd", num 1)])
  /\ getNestedValue Scenario.builtin Scenario.quotes ("data.rates[0]" ++ "." ++ "usd")
     = getNestedValue Scenario.builtin (JObj [("usd", num 1)]) "usd".
Proof.
  split; [reflexivity|]. split; [reflexivity|].
  exact (getNestedValue_compose Scenario.builtin Scenario.quotes (JObj [("usd", num 1)])
           "data.rates[0]" "usd" eq_refl
           ltac:(discriminate) ltac:(discriminate) eq_refl eq_refl).
Defined.

Section Footprint.
Variable Options : Type.
Variable respond : string -> Options -> Error.t + Response.t.
Variable latency : string -> Q.

Lemma try_fetch_cache (target url : string) (options : Options) (useCache : bool)
    (cacheDuration : number) (w : World) :
  let out :=
    try_fetch Options respond latency target url options useCache cacheDuration w in
  apiCache (snd out) = apiCache w
  \/ (useCache = true
      /\ exists result e, fst out = inr result
                          /\ apiCache (snd out) = <[url := e]> (apiCache w)).
Proof.
  unfold try_fetch, bind, fetch, ret.
  destruct (respond target options) as [e|r]; [now left|].
  destruct (negb (Response.ok r)); [now left|].
  destruct (Response.json r) as [e|data]; [now left|].
  destruct useCache; [|now left].
  right. split; [reflexivity|]. rewrite setCachedData_unfold. cbn [fst snd apiCache].
  eauto.
Qed.

Lemma fetch_uncached_cache (url : string) (options : Options) (useCache : bool)
    (cacheDuration : number) (w : World) :
  let out :=
    fetch_uncached Options respond latency url options useCache cacheDuration w in
  apiCache (snd out) = apiCache w
  \/ (useCache = true /\ FetchResult.success (fst out) = true
      /\ exists e, apiCache (snd out) = <[url := e]> (apiCache w)).
Proof.
  unfold fetch_uncached, bind.
  destruct (thrown_by_try (respond url options)) as [error|] eqn:Hdirect.
  - rewrite (try_fetch_thrown _ _ _ _ _ _ _ _ _ _ Hdirect).
    destruct (is_cors_or_network error); [|now left].
    destruct (thrown_by_try (respond (CORS_PROXY ++ url) options)) as [perr|] eqn:Hproxy.
    + rewrite (try_fetch_thrown _ _ _ _ _ _ _ _ _ _ Hproxy). now left.
    + pose proof (try_fetch_cache (CORS_PROXY ++ url) url options useCache cacheDuration
                    (mkWorld (apiCache w) (clock w + latency url)%Q
                       (requests w ++ [url])%list)) as Hc.
      destruct (try_fetch_returned Options respond latency (CORS_PROXY ++ url) url
                  options useCache cacheDuration
                  (mkWorld (apiCache w) (clock w + latency url)%Q
                     (requests w ++ [url])%list) Hproxy) as (data & w2 & Heq & _).
      rewrite Heq in *. cbn [fst snd apiCache ret] in *.
      destruct Hc as [Hc|(Hu & result & e & _ & Hc)]; [now left|].
      right. split; [exact Hu|]. split; [reflexivity|]. now exists e.
  - pose proof (try_fetch_cache url url options useCache cacheDuration w) as Hc.
    destruct (try_fetch_returned Options respond latency url url options useCache
                cacheDuration w Hdirect) as (data & w2 & Heq & _).
    rewrite Heq in *. cbn [fst snd apiCache ret] in *.
    destruct Hc as [Hc|(Hu & result & e & _ & Hc)]; [now left|].
    right. split; [exact Hu|]. split; [reflexivity|]. now exists e.
Qed.

(** The footprint of [fetchFromAPI] on the cache.  The entries of other URLs
    are never touched; without [useCache] the cache is not touched at all;
    and a failure is never cached: after a failed call the cache is as it
    was, except that an entry of the URL that the clock had passed has been
    evicted by the lookup; it is evicted whenever the URL has such an entry
    and the cache is in use. *)
Theorem fetchFromAPI_cache_footprint (url : string) (options : Options)
    (useCache : bool) (cacheDuration : number) (w : World) :
  let out := fetchFromAPI Options respond latency url options useCache cacheDuration w in
  let expired :=
    match apiCache w !! url with
    | Some e => number_gt (Finite (clock w)) (CacheEntry.expiresAt e)
    | None => false
    end in
  (forall other, other <> url -> apiCache (snd out) !! other = apiCache w !! other)
  /\ (useCache = false -> apiCache (snd out) = apiCache w)
  /\ (FetchResult.success (fst out) = false ->
      apiCache (snd out)
      = if useCache && expired then delete url (apiCache w) else apiCache w).
Proof.
  intros out expired. subst out. unfold fetchFromAPI, bind. destruct useCache.
  - assert (Hget : apiCache (snd (getCachedData url w))
                   = if expired then delete url (apiCache w) else apiCache w).
    { subst expired.
      unfold getCachedData, bind, apiCache_get, Date_now, apiCache_delete, ret.
      destruct (apiCache w !! url) as [e|]; [|reflexivity].
      now destruct (number_gt (Finite (clock w)) (CacheEntry.expiresAt e)). }
    destruct (getCachedData url w) as [cachedData w1]. cbn [snd] in Hget.
    assert (Hother : forall other, other <> url ->
                       apiCache w1 !! other = apiCache w !! other).
    { intros other Hne. rewrite Hget. destruct expired; [|reflexivity].
      now apply lookup_delete_ne. }
    destruct (truthy cachedData).
    + cbn [ret fst snd FetchResult.success].
      split; [exact Hother|]. split; [discriminate|discriminate].
    + pose proof (fetch_uncached_cache url options true cacheDuration w1) as Hc.
      cbv zeta in Hc.
      destruct (fetch_uncached Options respond latency url options true cacheDuration w1)
        as [result w2]. cbn [fst snd] in *.
      split; [|split; [discriminate|]].
      * intros other Hne. rewrite <- (Hother other Hne).
        destruct Hc as [->|(_ & _ & e & ->)]; [reflexivity|].
        now apply lookup_insert_ne.
      * intros Hfail. destruct Hc as [->|(_ & Hs & _)]; [exact Hget|congruence].
  - pose proof (fetch_uncached_cache url options false cacheDuration w) as Hc.
    cbv zeta in Hc.
    destruct (fetch_uncached Options respond latency url options false cacheDuration w)
      as [result w2]. cbn [fst snd] in *.
    destruct Hc as [Hc|(Hu & _)]; [|discriminate].
    rewrite Hc. split; [reflexivity|]. split; [reflexivity|]. intros _. reflexivity.
Qed.
End Footprint.

(** *** Instances *)

Lemma fetchFromAPI_burst_collapses_witness :
  truthy (fst (getCachedData "u" Scenario.w0)) = false
  /\ (10 <= 30)%Q
  /\ fetchFromAPI unit (Scenario.always_ok (num 8)) Scenario.no_latency "u" tt true
       (Finite 5)
       (advance (10 * 1000)
          (snd (fetchFromAPI unit (Scenario.always_ok (num 8)) Scenario.no_latency
                  "u" tt true (Finite 30) Scenario.w0)))
     = (FetchResult.mk true (num 8) None (Some true),
        advance (10 * 1000)
          (snd (fetchFromAPI unit (Scenario.always_ok (num 8)) Scenario.no_latency
                  "u" tt true (Finite 30) Scenario.w0))).
Proof.
  assert (H0 : (0 <= 10)%Q) by discriminate.
  assert (H1 : (10 <= 30)%Q) by discriminate.
  split; [reflexivity|]. split; [exact H1|].
  exact (fetchFromAPI_burst_collapses unit (Scenario.always_ok (num 8)) Scenario.no_latency
           Scenario.w0 "u" tt 30 10 (Finite 5) (Response.mk 200 "OK" (inr (num 8))) (num 8)
           eq_refl eq_refl eq_refl eq_refl eq_refl H0 H1).
Defined.



Lemma exploreJSONPaths_resolve_witness :
  is_array Scenario.quotes = false
  /\ well_keyed Scenario.quotes = true
  /\ In Scenario.usd (exploreJSONPaths Scenario.quotes "" 5)
  /\ exists found,
      getNestedValue Scenario.builtin Scenario.quotes "data.rates[0].usd" = Returns found
      /\ describes Scenario.usd found.
Proof.
  assert (H : In Scenario.usd (exploreJSONPaths Scenario.quotes "" 5))
    by (vm_compute; do 3 right; left; reflexivity).
  split; [reflexivity|]. split; [reflexivity|]. split; [exact H|].
  exact (exploreJSONPaths_resolve Scenario.builtin Scenario.quotes 5 eq_refl eq_refl
           Scenario.usd H).
Defined.

Lemma exploreJSONPaths_top_array_unresolved_witness :
  In Scenario.usd_in_list (exploreJSONPaths (JArr Scenario.quote_list) "" 5)
  /\ PathInfo.path Scenario.usd_in_list <> ""
  /\ getNestedValue Scenario.builtin (JArr Scenario.quote_list)
       (PathInfo.path Scenario.usd_in_list) = Returns JUndefined.
Proof.
  assert (H : In Scenario.usd_in_list (exploreJSONPaths (JArr Scenario.quote_list) "" 5))
    by (vm_compute; right; left; reflexivity).
  split; [exact H|]. split; [discriminate|].
  destruct (exploreJSONPaths_top_array_unresolved Scenario.builtin Scenario.quote_list 5
              Scenario.usd_in_list H) as [(Hempty & _)|(_ & _ & Hundefined)].
  - discriminate Hempty.
  - apply Hundefined. intros name. reflexivity.
Defined.

Lemma explored_field_shown_witness :
  In Scenario.usd
    (exploreJSONPaths
       (JObj [("data", JObj [("rates", JArr [JObj [("usd", num 1)]])])]) "" 5)
  /\ transformAPIData Scenario.builtin
       (JObj [("data", JObj [("rates", JArr [JObj [("usd", num 1)]])])])
       [FieldMapping.mk "data.rates[0].usd" "USD"] "card"
     = Returns [JObj [("USD", num 1)]]
  /\ transformAPIData Scenario.builtin
       (JObj [("data", JObj [("rates", JArr [JObj [("usd", num 1)]])])])
       [FieldMapping.mk "data.rates[0].usd" "__proto__"] "card"
     = Returns [JObj []].
Proof.
  assert (H : In Scenario.usd
                (exploreJSONPaths
                   (JObj [("data", JObj [("rates", JArr [JObj [("usd", num 1)]])])]) "" 5))
    by (vm_compute; do 3 right; left; reflexivity).
  split; [exact H|]. split.
  - exact (explored_field_shown Scenario.builtin
             [("data", JObj [("rates", JArr [JObj [("usd", num 1)]])])]
             5 Scenario.usd "USD" "card" eq_refl H eq_refl).
  - exact (explored_field_shown Scenario.builtin
             [("data", JObj [("rates", JArr [JObj [("usd", num 1)]])])]
             5 Scenario.usd "__proto__" "card" eq_refl H eq_refl).
Defined.

Lemma clicks_resolve_witness :
  In Scenario.usd_click
    (clicks {["data"; "data.rates"]} Scenario.quotes)
  /\ (exists found,
        getNestedValue Scenario.builtin Scenario.quotes "data.rates[0].usd" = Returns found
        /\ typeof found = "number"
        /\ isExpandable found = false)
  /\ List.last (split_dot "data.rates[0].usd") "" = "usd".
Proof.
  assert (H : In Scenario.usd_click (clicks {["data"; "data.rates"]} Scenario.quotes))
    by (vm_compute; left; reflexivity).
  split; [exact H|].
  destruct (clicks_resolve Scenario.builtin {["data"; "data.rates"]} Scenario.quotes
              eq_refl eq_refl Scenario.usd_click H) as (_ & Hfound & Hname).
  split; [exact Hfound|exact Hname].
Defined.

End Coverage.
